(** * csxdata: the source parser ([parser/parser.py]) and the text helpers it
    calls ([utilities/misc.py]), embedded as Rocq functions.

    Python [str] values are lists of Unicode code points, exceptions are
    values of an error type, the file system is a table from paths to file
    contents with the paths that cannot be written, and a NumPy array that
    the caller still holds is threaded through the functions that write to
    it. *)

From Stdlib Require Import String Ascii NArith ZArith QArith Arith Lia Bool List.
From Stdlib Require Import DecimalString Permutation.
Import ListNotations.
Close Scope Q_scope.
Open Scope nat_scope.

(** ** Python values *)

(** A [str]: the sequence of its code points. *)
Definition pystr := list N.

(** An ASCII literal of the source as a [pystr]. *)
Definition str (s : string) : pystr :=
  map N_of_ascii (list_ascii_of_string s).

Definition pystr_eqb (a b : pystr) : bool :=
  if list_eq_dec N.eq_dec a b then true else false.

(** Exceptions: the class, and the message when the raise statement is in the
    parser itself (exceptions raised inside NumPy or the interpreter carry
    [None]). *)
Inductive exn_class :=
| TypeError | ValueError | IndexError | ZeroDivisionError
| AttributeError | FileNotFoundError | StopIteration
| IsADirectoryError | PermissionError | RecursionError.

Record exn := Exn { exn_cls : exn_class; exn_msg : option pystr }.

Inductive result (A : Type) :=
| Ok (a : A)
| Raise (e : exn).
Arguments Ok {A} a.
Arguments Raise {A} e.

Definition raise {A} (c : exn_class) : result A := Raise (Exn c None).
Definition raise_msg {A} (c : exn_class) (m : pystr) : result A :=
  Raise (Exn c (Some m)).

Definition bind {A B} (r : result A) (k : A -> result B) : result B :=
  match r with
  | Ok a => k a
  | Raise e => Raise e
  end.

Notation "x <- r ;; k" := (bind r (fun x => k))
  (at level 61, r at next level, right associativity).

(** The file system: the text of each file, by path, and for each path the
    exception with which the system refuses to open it for writing, if it
    does (a path whose directory is missing raises [FileNotFoundError], a
    directory [IsADirectoryError], a path the user may not write
    [PermissionError]). *)
Record filesystem := FileSystem {
  file : pystr -> option pystr;
  open_error : pystr -> option exn_class
}.

(** [fs path] is the text of the file at [path]. *)
Coercion file : filesystem >-> Funclass.

(** [open(path).read()].  A path that names no file raises
    [FileNotFoundError]; the other failures of [open] are not told apart. *)
Definition read_file (fs : filesystem) (path : pystr) : result pystr :=
  match fs path with
  | Some text => Ok text
  | None => raise FileNotFoundError
  end.

(** The exception [open(path, "w")] raises, if it raises: the empty path
    names no file on any system. *)
Definition refused (fs : filesystem) (path : pystr) : option exn_class :=
  match path with
  | [] => Some FileNotFoundError
  | _ :: _ => open_error fs path
  end.

(** [open(path, "w").write(text)]: the file is made, or replaced, unless
    [open] refuses the path, and then nothing is written. *)
Definition write_file (fs : filesystem) (path text : pystr)
  : result unit * filesystem :=
  match refused fs path with
  | Some c => (raise c, fs)
  | None =>
      (Ok tt,
       FileSystem (fun p => if pystr_eqb p path then Some text else fs p)
                  (open_error fs))
  end.

(** ** [str] methods used by the parser *)

(** The alphabet of the parser's texts: Latin-1, and the Hungarian letters
    outside it (U+0150, U+0151, U+0170, U+0171). *)
Definition latin (c : N) : bool :=
  (c <=? 255)%N || existsb (N.eqb c) [336; 337; 368; 369]%N.

(** [str.lower] on the texts over [latin], where it works character by
    character.  A code point outside [latin] is returned as it is, which is
    not what [str.lower] does with all of them (it lowers the capitals of
    other scripts, makes two characters of U+0130 and looks at what follows
    a capital sigma): what holds of [str.lower] on [latin] only is stated
    for the texts over [latin]. *)
Definition lower_cp (c : N) : N :=
  if ((65 <=? c) && (c <=? 90))%N then (c + 32)%N
  else if ((192 <=? c) && (c <=? 222) && negb (c =? 215))%N then (c + 32)%N
  else if (c =? 336)%N then 337%N
  else if (c =? 368)%N then 369%N
  else c.

Definition lower (s : pystr) : pystr := map lower_cp s.

(** [s.startswith(p)]. *)
Fixpoint startswith (p s : pystr) : bool :=
  match p, s with
  | [], _ => true
  | _ :: _, [] => false
  | a :: p', b :: s' => (a =? b)%N && startswith p' s'
  end.

(** [p in s]. *)
Fixpoint contains (p s : pystr) : bool :=
  startswith p s ||
  match s with
  | [] => false
  | _ :: s' => contains p s'
  end.

(** [s[-n:]] for a positive [n]. *)
Definition last_chars (n : nat) (s : pystr) : pystr :=
  skipn (length s - n) s.

(** [s.replace(old, new)]: the occurrences of [old] are found from the left
    and do not overlap; [skip] counts the characters of a matched occurrence
    still to be passed over. *)
Fixpoint replace_from (old new : pystr) (skip : nat) (s : pystr) : pystr :=
  match s with
  | [] => []
  | c :: s' =>
      match skip with
      | S k => replace_from old new k s'
      | O =>
          if startswith old s
          then new ++ replace_from old new (length old - 1) s'
          else c :: replace_from old new 0 s'
      end
  end.

Definition replace (old new s : pystr) : pystr :=
  match old with
  | [] => new ++ flat_map (fun c => c :: new) s
  | _ :: _ => replace_from old new 0 s
  end.

(** [s.split(sep)]: [cur] is the piece being read, in reverse. *)
Fixpoint split_from (sep : pystr) (skip : nat) (cur : pystr) (s : pystr)
  : list pystr :=
  match s with
  | [] => [rev cur]
  | c :: s' =>
      match skip with
      | S k => split_from sep k cur s'
      | O =>
          if startswith sep s
          then rev cur :: split_from sep (length sep - 1) [] s'
          else split_from sep 0 (c :: cur) s'
      end
  end.

Definition split (s sep : pystr) : result (list pystr) :=
  match sep with
  | [] => raise ValueError
  | _ :: _ => Ok (split_from sep 0 [] s)
  end.

(** Truth value of a [str]: non-empty. *)
Definition truthy (s : pystr) : bool :=
  match s with
  | [] => false
  | _ :: _ => true
  end.

(** ** [utilities/misc.py] *)

(** The accent table of [dehungarize], in the order of the dict literal. *)
Definition dictionary : list (pystr * pystr) :=
  [ ([225%N], str "a"); ([233%N], str "e"); ([237%N], str "i");
    ([243%N], str "o"); ([246%N], str "o"); ([337%N], str "o");
    ([250%N], str "u"); ([252%N], str "u"); ([369%N], str "u");
    ([193%N], str "A"); ([201%N], str "E"); ([205%N], str "I");
    ([211%N], str "O"); ([214%N], str "O"); ([336%N], str "O");
    ([218%N], str "U"); ([220%N], str "U"); ([368%N], str "U") ].

(** What [dehungarize] does to the text it has read (lines 55 to 60):
    lower-casing if asked, the replacements of the table, then the decimal
    commas if asked. *)
Definition dehungarize_txt (lower_ decimal : bool) (txt : pystr) : pystr :=
  let txt := if lower_ then lower txt else txt in
  let txt :=
    fold_left (fun t kv => replace (fst kv) (snd kv) t) dictionary txt in
  if decimal then replace (str ",") (str ".") txt else txt.

(** [dehungarize(inflpath, outflpath, lower, decimal)]: the first argument is
    the path of the file to read.  Returns the text when [outflpath] is
    [None], writes it to [outflpath] and returns [None] otherwise; the
    second component is the file system as the call leaves it. *)
Definition dehungarize (fs : filesystem) (inflpath : pystr)
    (outflpath : option pystr) (lower_ decimal : bool)
  : result (option pystr) * filesystem :=
  match read_file fs inflpath with
  | Raise e => (Raise e, fs)
  | Ok txt =>
      let txt := dehungarize_txt lower_ decimal txt in
      match outflpath with
      | None => (Ok (Some txt), fs)
      | Some out =>
          match write_file fs out txt with
          | (Ok _, fs') => (Ok None, fs')
          | (Raise e, fs') => (Raise e, fs')
          end
      end
  end.

(** *** The cell classifier

    [parser.py] imports [isnumber] from [utilities/misc.py], which does not
    define it. *)

Definition is_digit (c : N) : bool := ((48 <=? c) && (c <=? 57))%N.

(** The longest prefix of digits, and the rest. *)
Fixpoint span_digits (s : pystr) : pystr * pystr :=
  match s with
  | [] => ([], [])
  | c :: s' =>
      if is_digit c
      then let (ds, r) := span_digits s' in (c :: ds, r)
      else ([], s)
  end.

(** An optional sign: [true] for a minus. *)
Definition strip_sign (s : pystr) : bool * pystr :=
  match s with
  | [] => (false, [])
  | c :: r =>
      if (c =? 45)%N then (true, r)
      else if (c =? 43)%N then (false, r)
      else (false, s)
  end.

Definition digits_value (ds : pystr) : N :=
  fold_left (fun acc c => (10 * acc + (c - 48))%N) ds 0%N.

(** A decimal literal that has been read: sign, digits before and after the
    point, decimal exponent. *)
Record literal := Literal {
  lit_neg : bool;
  lit_int : pystr;
  lit_frac : pystr;
  lit_exp : Z
}.

(** The exponent part, which must end the token; no exponent is [0]. *)
Definition parse_exponent (s : pystr) : option Z :=
  match s with
  | [] => Some 0%Z
  | c :: r =>
      if ((c =? 101) || (c =? 69))%N then
        let (neg, r1) := strip_sign r in
        let (ds, r2) := span_digits r1 in
        match ds, r2 with
        | _ :: _, [] =>
            Some (if neg then (- Z.of_N (digits_value ds))%Z
                  else Z.of_N (digits_value ds))
        | _, _ => None
        end
      else None
  end.

(** Reading a whole token as a floating-point literal: optional sign, digits,
    optional decimal point, optional exponent, nothing left over. *)
Definition parse_float_literal (s : pystr) : option literal :=
  let (neg, s1) := strip_sign s in
  let (ip, s2) := span_digits s1 in
  match s2 with
  | [] =>
      match ip with
      | [] => None
      | _ :: _ => Some (Literal neg ip [] 0)
      end
  | c :: s3 =>
      if (c =? 46)%N then
        let (fp, s4) := span_digits s3 in
        match ip, fp with
        | [], [] => None
        | _, _ => option_map (Literal neg ip fp) (parse_exponent s4)
        end
      else
        match ip with
        | [] => None
        | _ :: _ => option_map (Literal neg ip []) (parse_exponent s2)
        end
  end.

(** Modelled from the spec: [isnumber] of [utilities/misc.py], missing from
    the source tree.  It attempts to read the token as a floating-point
    number under the standard literal rules and answers whether the whole
    token was read. *)
Definition isnumber (token : pystr) : bool :=
  match parse_float_literal token with
  | Some _ => true
  | None => false
  end.

(** The literal rules in the spec's words, as a grammar. *)
Definition all_digits (ds : pystr) : Prop := forallb is_digit ds = true.

Inductive Sign : pystr -> Prop :=
| sign_none : Sign []
| sign_plus : Sign [43%N]
| sign_minus : Sign [45%N].

Inductive Mantissa : pystr -> Prop :=
| mant_digits ds :
    ds <> [] -> all_digits ds -> Mantissa ds
| mant_point ip fp :
    all_digits ip -> all_digits fp -> ip <> [] \/ fp <> [] ->
    Mantissa (ip ++ 46%N :: fp).

Inductive Exponent : pystr -> Prop :=
| exp_none : Exponent []
| exp_some e sg ds :
    e = 101%N \/ e = 69%N -> Sign sg -> ds <> [] -> all_digits ds ->
    Exponent (e :: sg ++ ds).

Inductive FloatLiteral : pystr -> Prop :=
| float_literal sg m ex :
    Sign sg -> Mantissa m -> Exponent ex -> FloatLiteral (sg ++ m ++ ex).

(** ** NumPy *)

(** A float of an array is kept as what it was decoded from: the decimal
    literal whose nearest float it is, or one of the special values. *)
Inductive npfloat :=
| NaN
| Inf (neg : bool)
| Finite (l : literal).

(** The decimal value of a literal. *)
Definition literal_value (l : literal) : Q :=
  let digits := (lit_int l ++ lit_frac l)%list in
  let m := Z.of_N (digits_value digits) in
  let e := (lit_exp l - Z.of_nat (length (lit_frac l)))%Z in
  ((if lit_neg l then (- m)%Z else m) # 1) * Qpower (10 # 1) e.

(** Decoding one cell of a string array as a float: a literal, or the names
    of the special values in any case with an optional sign.  The cells that
    reach it in [array] are literals or (a prefix of) the marker "nan". *)
Definition float_of_cell (cell : pystr) : option npfloat :=
  match parse_float_literal cell with
  | Some l => Some (Finite l)
  | None =>
      let (neg, name) := strip_sign (lower cell) in
      if pystr_eqb name (str "nan") then Some NaN
      else if pystr_eqb name (str "inf") || pystr_eqb name (str "infinity")
      then Some (Inf neg)
      else None
  end.

Fixpoint traverse {A B} (f : A -> option B) (l : list A) : option (list B) :=
  match l with
  | [] => Some []
  | a :: l' =>
      match f a, traverse f l' with
      | Some b, Some bs => Some (b :: bs)
      | _, _ => None
      end
  end.

Inductive dtype := float32 | float64.

(** [cells.astype(dtype)] for a float [dtype]: [ValueError] at the first cell
    that is not a float. *)
Definition astype (cells : list (list pystr)) (dt : dtype)
  : result (list (list npfloat)) :=
  match traverse (traverse float_of_cell) cells with
  | Some m => Ok m
  | None => raise ValueError
  end.

(** A two-dimensional array of fixed-width strings (dtype [<U itemsize]):
    storing a longer string keeps its first [itemsize] characters. *)
Record ndarray := NdArray {
  itemsize : nat;
  rows : list (list pystr)
}.

Definition ncols (A : ndarray) : nat :=
  match rows A with
  | [] => 0
  | r :: _ => length r
  end.

Definition uniform (g : list (list pystr)) : bool :=
  match g with
  | [] => true
  | r :: g' => forallb (fun r' => length r' =? length r) g'
  end.

Definition fits (w : nat) (g : list (list pystr)) : bool :=
  forallb (forallb (fun c => length c <=? w)) g.

(** The arrays NumPy builds: rows of one length, cells within the width. *)
Definition well_formed (A : ndarray) : bool :=
  uniform (rows A) && fits (itemsize A) (rows A) && (1 <=? itemsize A).

Definition max_width (g : list (list pystr)) : nat :=
  fold_right (fun r m => fold_right (fun c m' => Nat.max (length c) m') m r)
             1 g.

(** [np.array(g)] on a list of lists of strings: two-dimensional when the
    list is not empty and its rows have one length ([None] stands for the
    one-dimensional array built otherwise). *)
Definition np_array (g : list (list pystr)) : option ndarray :=
  match g with
  | [] => None
  | _ :: _ => if uniform g then Some (NdArray (max_width g) g) else None
  end.

(** A view: the rows from [row0] on and the columns [col0 .. col0 + width)
    of the array it was taken from; it shares that array's cells. *)
Record view := View { row0 : nat; col0 : nat; width : nat }.

Definition view_read (A : ndarray) (v : view) : list (list pystr) :=
  map (fun r => firstn (width v) (skipn (col0 v) r)) (skipn (row0 v) (rows A)).

Definition view_size (A : ndarray) (v : view) : nat :=
  length (concat (view_read A v)).

(** Writing [f cell] to every cell of the view writes to the array. *)
Definition view_update (f : pystr -> pystr) (A : ndarray) (v : view)
  : ndarray :=
  NdArray (itemsize A)
    (firstn (row0 v) (rows A) ++
     map (fun r => firstn (col0 v) r ++
                   map f (firstn (width v) (skipn (col0 v) r)) ++
                   skipn (col0 v + width v) r)
         (skipn (row0 v) (rows A))).

(** [np.split(matrix, sections, axis=1)] with an integer second argument:
    [sections] blocks of equal width, each a view; [ZeroDivisionError] for
    zero sections, [ValueError] when the columns do not divide. *)
Definition np_split (A : ndarray) (first_row sections : nat)
  : result (list view) :=
  match sections with
  | 0 => raise ZeroDivisionError
  | S _ =>
      if ncols A mod sections =? 0
      then let w := ncols A / sections in
           Ok (map (fun i => View first_row (i * w) w) (seq 0 sections))
      else raise ValueError
  end.

(** [np.ndarray(shape)] called on the list of the characters of a text: the
    constructor takes a shape, and a character is not a dimension.  (The
    empty shape gives an array without text.) *)
Definition np_ndarray (shape : pystr) : result pystr :=
  match shape with
  | [] => Ok []
  | _ :: _ => raise TypeError
  end.

(** ** [utilities/vectorop.py] *)

(** Modelled from the spec: [to_ngrams] of [utilities/vectorop.py], missing
    from the source tree.  It groups the characters into the
    [len(text) - n_gram + 1] sliding windows of size [n_gram], in order, each
    a string, all built before it returns. *)
Definition to_ngrams (chars : pystr) (ngram : nat) : list pystr :=
  map (fun i => firstn ngram (skipn i chars))
      (seq 0 (length chars + 1 - ngram)).

(** ** [parser/parser.py] *)

(** The keyword options the parser looks up, each with the value [kw.get]
    returns: the caller's, or the default of the call site. *)
Record kwargs := Kwargs {
  kw_dehungarize : bool;
  kw_decimal : bool;
  kw_lower : bool;
  kw_endline_to_space : bool;
  kw_sep : pystr;
  kw_end : pystr;
  kw_dtype : dtype;
  kw_floatX : dtype
}.

(** No option given: [sep] is a tab, [end] a newline, the dtypes float32. *)
Definition no_kwargs : kwargs :=
  Kwargs false false false false [9%N] [10%N] float32 float32.

(** The triple [(X, Y, header)]. *)
Record table := Table {
  X : list (list npfloat);
  X_dtype : dtype;
  Y : list (list pystr);
  header : option (list pystr)
}.

(** What the parser calls and the source tree does not hold: pandas (data
    frames, [read_excel], and [dataframe] of lines 69 to 75, which is pandas
    calls only), and the modules [parser/reparse.py] and
    [utilities/vectorop.py]. *)
Class Collaborators := {
  DataFrame : Type;
  dataframe : DataFrame -> nat -> kwargs -> result table * DataFrame;
  read_excel : pystr -> nat -> nat -> option nat -> nat -> result DataFrame;
  reparse_data : table -> kwargs -> result table;
  reparse_txt : pystr -> kwargs -> result pystr;
  to_wordarray : pystr -> list pystr
}.

(** [str.lower] as the interpreter has it, on every string.  The dispatcher
    is handed any string for a source, and its properties are stated for
    all of them: it takes the method as a parameter. *)
Class Interpreter := {
  str_lower : pystr -> pystr
}.

(** The cell written over a cell of X: itself when it is a number, the marker
    otherwise, as much of it as the array's items hold. *)
Definition nan_marker (w : nat) (cell : pystr) : pystr :=
  if isnumber cell then cell else firstn w (str "nan").

(** [array(A, indeps, headers, dtype)], lines 8 to 14.  [A] is the caller's
    array; [matrix], [X], [Y] and [header] are views of it.  The second
    component is [A] as the call leaves it. *)
Definition array (A : ndarray) (indeps headers : nat) (dt : dtype)
  : result table * ndarray :=
  match np_split A headers indeps with
  | Raise e => (Raise e, A)
  | Ok [vX; vY] =>
      (* np.vectorize refuses an input without elements *)
      if view_size A vX =? 0 then (raise ValueError, A)
      else
        let A' := view_update (nan_marker (itemsize A)) A vX in
        match astype (view_read A' vX) dt with
        | Raise e => (Raise e, A')
        | Ok Xf =>
            let header :=
              match headers with
              | 0 => None
              | S _ => Some (concat (firstn headers (rows A')))
              end in
            (Ok (Table Xf dt (view_read A' vY) header), A')
        end
  | Ok _ => (raise ValueError, A)   (* X, Y = ... needs two blocks *)
  end.

(** What [learningtable] is called with: a tuple or, from the suffix branch,
    the source string itself. *)
Inductive pair_source :=
| PTuple (items : list ndarray)
| PStr (s : pystr).

(** [learningtable(source, dtype)], lines 17 to 19. *)
Definition learningtable (source : pair_source) (dt : dtype) : result table :=
  match source with
  | PTuple [Xa; y] =>
      Xf <- astype (rows Xa) dt ;;
      Ok (Table Xf dt (rows y) None)
  | PTuple _ => raise ValueError
  | PStr [_; _] => raise AttributeError   (* a str has no astype *)
  | PStr _ => raise ValueError
  end.

(** The call [dehungarize(text)] of [csv] and [massive_txt]: the text is
    passed where [dehungarize] expects the path of a file. *)
Definition call_dehungarize (fs : filesystem) (text : pystr) : result pystr :=
  match fst (dehungarize fs text None false false) with
  | Ok (Some t) => Ok t
  | Ok None => raise AttributeError   (* not reached without an outflpath *)
  | Raise e => Raise e
  end.

(** [f.read(size)]: at most [size] characters. *)
Definition read_chars (size : nat) (content : pystr) : pystr :=
  firstn size content.

(** [f.read(n=bsize)]: [TextIOWrapper.read] takes its size by position only;
    the keyword is refused before a character is read. *)
Definition read_keyword_n (bsize : nat) (content : pystr) : result pystr :=
  raise TypeError.

Fixpoint map_result {A B} (f : A -> result B) (l : list A) : result (list B) :=
  match l with
  | [] => Ok []
  | a :: l' => b <- f a ;; bs <- map_result f l' ;; Ok (b :: bs)
  end.

Definition in_tuple (s : pystr) (t : list pystr) : bool :=
  existsb (pystr_eqb s) t.

(** The sources [parse_source] can be handed; [SOther] carries
    [str(type(source))] of any other object. *)
Inductive source `{Collaborators} :=
| SArray (A : ndarray)
| STuple (items : list ndarray)
| SDataFrame (df : DataFrame)
| SStr (s : pystr)
| SOther (type_repr : pystr).

Section Parser.
Context `{Collaborators} `{Interpreter}.

(** Line 27 of [txt]. *)
Definition tokenize (text : pystr) (ngram : option nat) : list pystr :=
  match ngram with
  | Some (S g) => to_ngrams text (S g)
  | Some 0 | None => to_wordarray text
  end.

(** [txt(source, ngram, **kw)], lines 22 to 27. *)
Definition txt (fs : filesystem) (source : pystr) (ngram : option nat)
    (kw : kwargs) : result (list pystr) :=
  text <- (if (contains (str "\") source || contains (str "/") source)
              && (length source <? 200)
           then read_file fs source else Ok source) ;;
  text <- reparse_txt text kw ;;
  Ok (tokenize text ngram).

(** Lines 35 to 44 of [massive_txt], from the chunk that was read. *)
Definition massive_txt_chunk (fs : filesystem) (chunk : pystr) (ngram : nat)
    (kw : kwargs) : result (list pystr) :=
  if negb (truthy chunk) then raise_msg StopIteration (str "File ended")
  else
    chunk <- (if kw_dehungarize kw then call_dehungarize fs chunk
              else Ok chunk) ;;
    let chunk :=
      if kw_endline_to_space kw then replace [10%N] (str " ") chunk
      else chunk in
    let chunk := if kw_lower kw then lower chunk else chunk in
    arr <- np_ndarray chunk ;;
    Ok (to_ngrams arr ngram).

(** [massive_txt(source, bsize, ngram, **kw)], lines 30 to 44: what the
    first [next] of the generator produces. *)
Definition massive_txt (fs : filesystem) (source : pystr) (bsize ngram : nat)
    (kw : kwargs) : result (list pystr) :=
  content <- read_file fs source ;;
  chunk <- read_keyword_n bsize content ;;
  massive_txt_chunk fs chunk ngram kw.

(** Lines 52 to 57 of [csv]: the text as it is split into lines. *)
Definition csv_text (fs : filesystem) (text : pystr) (kw : kwargs)
  : result pystr :=
  text <- (if kw_dehungarize kw then call_dehungarize fs text else Ok text) ;;
  let text :=
    if kw_decimal kw then replace (str ",") (str ".") text else text in
  let text := if kw_lower kw then lower text else text in
  Ok text.

(** Line 58 of [csv]: the list handed to [np.array]. *)
Definition csv_lines (text : pystr) (kw : kwargs)
  : result (list (list pystr)) :=
  ls <- split text (kw_end kw) ;;
  map_result (fun l => split l (kw_sep kw)) (filter truthy ls).

(** Line 59 of [csv]: [array] on the array of the lines.  A list that does
    not make a two-dimensional array has no second axis to split. *)
Definition csv_table (lines : list (list pystr)) (indeps headers : nat)
    (kw : kwargs) : result table :=
  match np_array lines with
  | None => raise IndexError
  | Some A => fst (array A indeps headers (kw_dtype kw))
  end.

(** [csv(path, indeps, headers, **kw)], lines 47 to 60. *)
Definition csv (fs : filesystem) (path : pystr) (indeps headers : nat)
    (kw : kwargs) : result table :=
  text <- read_file fs path ;;
  text <- csv_text fs text kw ;;
  lines <- csv_lines text kw ;;
  t <- csv_table lines indeps headers kw ;;
  reparse_data t kw.

(** [xlsx(source, indeps, headers, ...)], lines 63 to 66, with the defaults
    of its other parameters. *)
Definition xlsx (source : pystr) (indeps headers : nat) (kw : kwargs)
  : result table :=
  df <- read_excel source 0 (Nat.max 0 (headers - 1)) None 0 ;;
  fst (dataframe df indeps kw).

(** [parse_source(source, indeps, headers, **kw)], lines 78 to 96, with the
    caller's object as the call leaves it. *)
Definition parse_source (fs : filesystem) (src : source) (indeps headers : nat)
    (kw : kwargs) : result table * source :=
  match src with
  | SArray A =>
      let (r, A') := array A indeps headers (kw_floatX kw) in (r, SArray A')
  | STuple items => (learningtable (PTuple items) (kw_floatX kw), src)
  | SDataFrame df =>
      let (r, df') := dataframe df indeps kw in (r, SDataFrame df')
  | SOther type_repr =>
      (raise_msg TypeError (str "Unsupported source type: " ++ type_repr), src)
  | SStr s =>
      if contains (str ".pkl.gz") (str_lower s) then
        (learningtable (PStr s) (kw_floatX kw), src)
      else if in_tuple (last_chars 4 (str_lower s)) [str ".csv"; str ".txt"]
      then
        (csv fs s indeps headers kw, src)
      else if in_tuple (last_chars 4 (str_lower s)) [str ".xls"; str "xlsx"]
      then
        (xlsx s indeps headers kw, src)
      else
        (raise_msg ValueError (str "Unsupported source: " ++ s), src)
  end.

End Parser.

(** An instance to run the parser with: re-parsing hands back what it was
    given, and there is no spreadsheet or data frame to read. *)
#[export] Instance plain_collaborators : Collaborators := {
  DataFrame := unit;
  dataframe := fun df _ _ => (raise ValueError, df);
  read_excel := fun _ _ _ _ _ => raise FileNotFoundError;
  reparse_data := fun t _ => Ok t;
  reparse_txt := fun s _ => Ok s;
  to_wordarray := fun s => [s]
}.

(** The interpreter for the examples, whose sources are texts over
    [latin]. *)
#[export] Instance latin_interpreter : Interpreter := {
  str_lower := lower
}.

(** ** Vocabulary of the properties *)

(** The accent table on code points, and its effect on one character. *)
Definition dictionary_cp : list (N * N) :=
  [ (225, 97); (233, 101); (237, 105); (243, 111); (246, 111); (337, 111);
    (250, 117); (252, 117); (369, 117);
    (193, 65); (201, 69); (205, 73); (211, 79); (214, 79); (336, 79);
    (218, 85); (220, 85); (368, 85) ]%N.

Definition unaccent_cp (c : N) : N :=
  fold_left (fun c kv => if (c =? fst kv)%N then snd kv else c) dictionary_cp c.

Definition starts_without_digit (r : pystr) : Prop :=
  match r with
  | [] => True
  | c :: _ => is_digit c = false
  end.

Definition starts_without_sign (r : pystr) : Prop :=
  match r with
  | [] => True
  | c :: _ => c <> 45%N /\ c <> 43%N
  end.

(** The cell of row [i] and column [j]. *)
Definition cell (A : ndarray) (i j : nat) : pystr :=
  nth j (nth i (rows A) []) [].

(** The float a cell stands for once the marker has replaced what is not a
    number. *)
Definition coerce_cell (c : pystr) : npfloat :=
  match parse_float_literal c with
  | Some l => Finite l
  | None => NaN
  end.

(** The array with the marker written over the cells of the first half of
    the columns, below the header rows, that are not numbers. *)
Definition marked (A : ndarray) (headers : nat) : ndarray :=
  let w := ncols A / 2 in
  NdArray (itemsize A)
    (firstn headers (rows A) ++
     map (fun r => map (nan_marker (itemsize A)) (firstn w r) ++ skipn w r)
         (skipn headers (rows A))).

(** ** Inputs of the examples *)

(** A table with a header row and three columns. *)
Definition table_3x3 : ndarray :=
  NdArray 3 [ [str "y"; str "x1"; str "x2"];
              [str "7"; str "1.5"; str "2"];
              [str "8"; str "2.5"; str "4"] ].

(** A table with a header row and four columns. *)
Definition table_2x4 : ndarray :=
  NdArray 2 [ [str "y1"; str "y2"; str "x1"; str "x2"];
              [str "1"; str "2"; str "3"; str "4"] ].

(** [np.array([["x", "1"]])]: its items hold one character. *)
Definition narrow_row : ndarray := NdArray 1 [ [str "x"; str "1"] ].

(** The column ["1.5", "abc", "-3"] next to a column of labels. *)
Definition example_column : ndarray :=
  NdArray 3 [ [str "1.5"; str "a"]; [str "abc"; str "b"]; [str "-3"; str "c"] ].

(** A header row and three data rows, the second of them not a number. *)
Definition table_4x2 : ndarray :=
  NdArray 3 [ [str "h1"; str "h2"]; [str "1.5"; str "x"];
              [str "abc"; str "y"]; [str "-3"; str "z"] ].

(** No file at all, and one file, where the system refuses no path. *)
Definition no_files : filesystem :=
  FileSystem (fun _ => None) (fun _ => None).

Definition one_file (path content : pystr) : filesystem :=
  FileSystem (fun p => if pystr_eqb p path then Some content else None)
             (fun _ => None).

(** The text "Á,5" in the file [data.csv]. *)
Definition accent_text : pystr := [193%N; 44%N; 53%N].
Definition fs_accent : filesystem := one_file (str "data.csv") accent_text.

(** [dehungarize] and [decimal] set. *)
Definition accent_kwargs : kwargs :=
  Kwargs true true false false [9%N] [10%N] float32 float32.

Definition fs_big : filesystem := one_file (str "big.txt") (str "ab").

(** A comma-separated file with a header, a blank line and a final
    newline. *)
Definition fs_table : filesystem :=
  one_file (str "t.csv") (str "a,b
1.5,x

abc,y
-3,z
").

Definition comma_kwargs : kwargs :=
  Kwargs false false false false (str ",") [10%N] float32 float32.

(** A well-formed comma-separated file whose name holds the pickle marker. *)
Definition fs_marker : filesystem :=
  one_file (str "t.pkl.gz.csv") (str "1.5,x
2.5,y
").

Definition lit (neg : bool) (int_part frac_part : string) : literal :=
  Literal neg (str int_part) (str frac_part) 0.

(** ** More of [utilities/misc.py] *)

(** [str(n)] for an [int]. *)
Definition str_int (n : Z) : pystr :=
  str (NilEmpty.string_of_int (Z.to_int n)).

(** [pad * k]. *)
Definition repeat_str (pad : pystr) (k : nat) : pystr :=
  concat (repeat pad k).

(** [padnumber(actual, maximum, pad, before)], lines 88 to 97, on integers. *)
Definition padnumber (actual maximum : Z) (pad : pystr) (before : bool)
  : result pystr :=
  let strmax := str_int maximum in
  let stract := str_int actual in
  let maxlen := length strmax in
  let actlen := length stract in
  if maxlen <? actlen then
    raise_msg ValueError
      (str "<actual> is bigger in string form than <maximum>!")
  else
    let pudding := repeat_str pad (maxlen - actlen) in
    Ok (if before then pudding ++ stract else stract ++ pudding).

(** [s.index(c)] for a character known to occur, else the length. *)
Fixpoint index_of (c : N) (s : pystr) : nat :=
  match s with
  | [] => 0
  | x :: s' => if (x =? c)%N then 0 else S (index_of c s')
  end.

(** What [niceround] can be handed: a float, known by the text [str] gives
    for it, a string, or any other object, known by [str(type(number))]. *)
Inductive number_arg :=
| ArgFloat (repr : pystr)
| ArgStr (s : pystr)
| ArgOther (type_repr : pystr).

Definition niceround_error (type_repr : pystr) : pystr :=
  str "Supplied parameter must be of type: float, not <" ++ type_repr
  ++ str ">".

(** Lines 78 to 85 of [niceround], on [str(number)]. *)
Definition niceround_text (strnumber : pystr) (places : nat) : pystr :=
  let decpoint :=
    if contains (str ".") strnumber then index_of 46%N strnumber
    else length strnumber in
  let predec := firstn decpoint strnumber in
  let after := firstn places (skipn (decpoint + 1) strnumber) in
  predec ++ str "." ++ after.

(** [niceround(number, places)], lines 69 to 85. *)
Definition niceround (number : number_arg) (places : nat) : result pystr :=
  match number with
  | ArgFloat repr => Ok (niceround_text repr places)
  | ArgStr s =>
      if negb (contains (str ".") s)
      then raise_msg TypeError (niceround_error (str "<class 'str'>"))
      else Ok (niceround_text s places)
  | ArgOther type_repr => raise_msg TypeError (niceround_error type_repr)
  end.

(** A Python object as [ravel] tells them apart: a list or anything else. *)
#[warnings="-register-all"] Inductive pyobj :=
| Atom (payload : pystr)
| PyList (items : list pyobj).

(** [ravel(a)], lines 100 to 106.  The function calls itself on the first
    item when it is a list, and on the rest of the list in any case: one
    call for each item.  [depth] is the number of nested calls the
    interpreter still allows (its recursion limit, less the calls under
    way); a call beyond it raises [RecursionError]. *)
Fixpoint ravel (depth : nat) (a : list pyobj) : result (list pyobj) :=
  match depth with
  | 0 => raise RecursionError
  | S depth' =>
      match a with
      | [] => Ok a
      | PyList items :: rest =>
          front <- ravel depth' items ;;
          back <- ravel depth' rest ;;
          Ok (front ++ back)
      | x :: rest =>
          back <- ravel depth' rest ;;
          Ok ([x] ++ back)
      end
  end.

(** [list.pop(i)] for an index within the list: the item and what is
    left. *)
Fixpoint pop {A} (i : nat) (l : list A) : option (A * list A) :=
  match l, i with
  | [], _ => None
  | x :: l', 0 => Some (x, l')
  | x :: l', S i' =>
      match pop i' l' with
      | Some (y, rest) => Some (y, x :: rest)
      | None => None
      end
  end.

(** [choose(iterable)], lines 17 to 21.  [draw] is any number:
    [random.randrange(n)] is [draw mod n], and refuses [n = 0].  The second
    component is the caller's list as the call leaves it. *)
Definition choose {A} (draw : nat) (iterable : list A)
  : result A * list A :=
  match iterable with
  | [] => (raise ValueError, iterable)
  | _ :: _ =>
      match pop (draw mod length iterable) iterable with
      | Some (x, rest) => (Ok x, rest)
      | None => (raise IndexError, iterable)
      end
  end.

(** [chooseN(iterable, n)], lines 12 to 14, with one draw for each of the
    [n] calls of [choose]. *)
Fixpoint chooseN {A} (draws : list nat) (iterable : list A)
  : result (list A) * list A :=
  match draws with
  | [] => (Ok [], iterable)
  | d :: draws' =>
      match choose d iterable with
      | (Raise e, remaining) => (Raise e, remaining)
      | (Ok x, remaining) =>
          match chooseN draws' remaining with
          | (Raise e, remaining') => (Raise e, remaining')
          | (Ok xs, remaining') => (Ok (x :: xs), remaining')
          end
      end
  end.

(** ** Vocabulary of the further properties *)

(** What [dehungarize] does to one character. *)
Definition dehungarize_cp (lower_ decimal : bool) (c : N) : N :=
  let c := if lower_ then lower_cp c else c in
  let c := unaccent_cp c in
  if decimal then (if (c =? 44)%N then 46%N else c) else c.

(** The accented letters of the table. *)
Definition accented (c : N) : Prop := In c (map fst dictionary_cp).

(** An item that is no list. *)
Definition is_atom (o : pyobj) : Prop :=
  match o with
  | Atom _ => True
  | PyList _ => False
  end.

(** The items of a nested list that are no lists, from left to right. *)
Fixpoint flatten_item (x : pyobj) : list pyobj :=
  match x with
  | Atom _ => [x]
  | PyList items =>
      (fix flatten_items (l : list pyobj) : list pyobj :=
         match l with
         | [] => []
         | y :: l' => flatten_item y ++ flatten_items l'
         end) items
  end.

Definition flatten (a : list pyobj) : list pyobj := flat_map flatten_item a.

(** The number of nested calls [ravel] makes on a list: one for the list,
    and under it the calls for its first item, when that is a list, and
    for the rest. *)
Fixpoint frames_item (x : pyobj) : nat :=
  match x with
  | Atom _ => 0
  | PyList items =>
      (fix frames_items (l : list pyobj) : nat :=
         match l with
         | [] => 1
         | y :: l' => S (Nat.max (frames_item y) (frames_items l'))
         end) items
  end.

Fixpoint frames (a : list pyobj) : nat :=
  match a with
  | [] => 1
  | x :: rest => S (Nat.max (frames_item x) (frames rest))
  end.

(** A text whose name is a file that holds "Á", and accent folding as the
    only option. *)
Definition fs_fold : filesystem := one_file (str "a") [193%N].

Definition fold_kwargs : kwargs :=
  Kwargs true false false false [9%N] [10%N] float32 float32.

(** An array of numbers. *)
Definition numeric_2x2 : ndarray :=
  NdArray 3 [ [str "1.5"; str "2"]; [str "-3"; str "4"] ].

(** * Properties *)

(** ** Strings and the accent table *)

Lemma replace_single a b s :
  replace [a] [b] s = map (fun c => if (c =? a)%N then b else c) s.
Proof.
  unfold replace. induction s as [|c s IH]; simpl; [reflexivity|].
  rewrite IH, (N.eqb_sym a c), andb_true_r.
  destruct (c =? a)%N; reflexivity.
Qed.

Lemma fold_replace_single (d : list (N * N)) s :
  fold_left (fun t kv => replace (fst kv) (snd kv) t)
            (map (fun kv => ([fst kv], [snd kv])) d) s
  = map (fun c => fold_left (fun c kv => if (c =? fst kv)%N then snd kv else c) d c) s.
Proof.
  revert s. induction d as [|[k v] d IH]; intros s; cbn [fold_left map fst snd].
  - now rewrite map_id.
  - rewrite replace_single, IH, map_map. reflexivity.
Qed.

Lemma dictionary_as_cp :
  dictionary = map (fun kv => ([fst kv], [snd kv])) dictionary_cp.
Proof. reflexivity. Qed.

Lemma dehungarize_txt_map lower_ txt :
  dehungarize_txt lower_ false txt
  = map unaccent_cp (if lower_ then lower txt else txt).
Proof.
  unfold dehungarize_txt. rewrite dictionary_as_cp, fold_replace_single.
  cbv iota. unfold unaccent_cp. destruct lower_; reflexivity.
Qed.

Lemma lower_cp_fixed d :
  (d < 65 \/ 90 < d)%N -> (d < 192 \/ 222 < d \/ d = 215)%N ->
  d <> 336%N -> d <> 368%N -> lower_cp d = d.
Proof.
  intros H1 H2 H3 H4. unfold lower_cp.
  destruct (N.leb_spec 65 d), (N.leb_spec d 90), (N.leb_spec 192 d),
    (N.leb_spec d 222), (N.eqb_spec d 215), (N.eqb_spec d 336),
    (N.eqb_spec d 368); simpl; try lia; reflexivity.
Qed.

Lemma lower_cp_idem c : lower_cp (lower_cp c) = lower_cp c.
Proof.
  apply lower_cp_fixed; unfold lower_cp;
  destruct (N.leb_spec 65 c), (N.leb_spec c 90), (N.leb_spec 192 c),
    (N.leb_spec c 222), (N.eqb_spec c 215), (N.eqb_spec c 336),
    (N.eqb_spec c 368); cbn [andb negb]; lia.
Qed.

Lemma chain_fixed d c :
  (forall kv, In kv d -> c <> fst kv) ->
  fold_left (fun c kv => if (c =? fst kv)%N then snd kv else c) d c = c.
Proof.
  induction d as [|kv d IH]; intros Hd; cbn [fold_left]; [reflexivity|].
  destruct (N.eqb_spec c (fst kv)) as [E | _].
  - exfalso. apply (Hd kv); [now left | exact E].
  - apply IH. intros kv' Hin. apply Hd. now right.
Qed.

Lemma chain_cases d c :
  (forall kv kv', In kv d -> In kv' d -> snd kv <> fst kv') ->
  let r := fold_left (fun c kv => if (c =? fst kv)%N then snd kv else c) d c in
  r = c \/ In (c, r) d.
Proof.
  induction d as [|kv d IH]; intros Hd; cbn [fold_left]; [now left|].
  destruct (N.eqb_spec c (fst kv)) as [E | _].
  - right. left. rewrite chain_fixed.
    + subst c. now destruct kv.
    + intros kv' Hin. apply Hd; [now left | now right].
  - destruct IH as [E | Hin].
    + intros k1 k2 H1 H2. apply Hd; now right.
    + now left.
    + right. now right.
Qed.

Lemma dictionary_cp_values_not_keys kv kv' :
  In kv dictionary_cp -> In kv' dictionary_cp -> snd kv <> fst kv'.
Proof.
  assert (H : forallb (fun kv => forallb (fun kv' => negb (snd kv =? fst kv')%N)
                                         dictionary_cp) dictionary_cp = true)
    by (vm_compute; reflexivity).
  intros H1 H2. rewrite forallb_forall in H. specialize (H kv H1).
  rewrite forallb_forall in H. specialize (H kv' H2).
  apply negb_true_iff, N.eqb_neq in H. exact H.
Qed.

Lemma unaccent_cp_cases c :
  unaccent_cp c = c \/ In (c, unaccent_cp c) dictionary_cp.
Proof. apply chain_cases, dictionary_cp_values_not_keys. Qed.

Lemma unaccent_keeps_lowered c :
  lower_cp c = c -> lower_cp (unaccent_cp c) = unaccent_cp c.
Proof.
  intros Hc. destruct (unaccent_cp_cases c) as [E | Hin].
  - now rewrite E.
  - remember (unaccent_cp c) as u eqn:Eu. clear Eu. revert Hc.
    unfold dictionary_cp in Hin. cbn [In] in Hin.
    repeat (destruct Hin as [Hin | Hin];
            [injection Hin as <- <-; vm_compute; congruence | ]).
    contradiction.
Qed.

Lemma unaccent_cp_idem c : unaccent_cp (unaccent_cp c) = unaccent_cp c.
Proof.
  destruct (unaccent_cp_cases c) as [E | Hin].
  - now rewrite !E.
  - remember (unaccent_cp c) as u eqn:Eu. clear Eu.
    unfold dictionary_cp in Hin. cbn [In] in Hin.
    repeat (destruct Hin as [Hin | Hin];
            [injection Hin as _ <-; vm_compute; reflexivity | ]).
    contradiction.
Qed.

Lemma lower_unaccent_lower c :
  lower_cp (unaccent_cp (lower_cp c)) = unaccent_cp (lower_cp c).
Proof. apply unaccent_keeps_lowered, lower_cp_idem. Qed.

Lemma lower_idem s : lower (lower s) = lower s.
Proof. unfold lower. rewrite map_map. apply map_ext, lower_cp_idem. Qed.

Lemma dehungarize_txt_idempotent (lower_ : bool) (T : pystr) :
  dehungarize_txt lower_ false (dehungarize_txt lower_ false T)
  = dehungarize_txt lower_ false T.
Proof.
  rewrite !dehungarize_txt_map. destruct lower_.
  - unfold lower. rewrite !map_map. apply map_ext. intros c.
    now rewrite lower_unaccent_lower, unaccent_cp_idem.
  - rewrite map_map. apply map_ext, unaccent_cp_idem.
Qed.

(** C9, at the input where the code departs from it.  With accent folding
    set, the normalization of [csv] hands the text to [dehungarize] as the
    path of a file.  Where the file named "a" holds "Á", the text "a" is
    normalized to "A", and normalizing "A" with the same options raises
    [FileNotFoundError] instead of giving "A" again; the text "Á" is not
    normalized at all.  [dehungarize] called on what it returned raises in
    the same way. *)
Theorem csv_fold_normalization_not_idempotent :
  csv_text fs_fold (str "a") fold_kwargs = Ok (str "A") /\
  csv_text fs_fold (str "A") fold_kwargs = raise FileNotFoundError /\
  (T' <- csv_text fs_fold (str "a") fold_kwargs ;;
   csv_text fs_fold T' fold_kwargs)
  <> csv_text fs_fold (str "a") fold_kwargs /\
  csv_text fs_fold [193%N] fold_kwargs = raise FileNotFoundError /\
  fst (dehungarize fs_fold (str "a") None false false) = Ok (Some (str "A")) /\
  fst (dehungarize fs_fold (str "A") None false false)
  = raise FileNotFoundError.
Proof.
  split; [reflexivity|]. split; [reflexivity|].
  split; [vm_compute; discriminate|].
  split; [reflexivity|]. split; reflexivity.
Qed.

Lemma pystr_eqb_eq a b : pystr_eqb a b = true <-> a = b.
Proof.
  unfold pystr_eqb. destruct (list_eq_dec N.eq_dec a b); split; congruence.
Qed.

Lemma pystr_eqb_neq a b : pystr_eqb a b = false <-> a <> b.
Proof.
  unfold pystr_eqb. destruct (list_eq_dec N.eq_dec a b); split; congruence.
Qed.

(** ** The cell classifier *)

Lemma span_digits_spec s :
  s = (fst (span_digits s) ++ snd (span_digits s))%list /\
  all_digits (fst (span_digits s)) /\
  starts_without_digit (snd (span_digits s)).
Proof.
  unfold all_digits.
  induction s as [|c s IH]; cbn [span_digits]; [now cbn|].
  destruct (is_digit c) eqn:Ec.
  - destruct (span_digits s) as [ds r]. cbn [fst snd] in *.
    destruct IH as (E & Hd & Hr). repeat split.
    + now rewrite E at 1.
    + cbn [forallb]. now rewrite Ec, Hd.
    + exact Hr.
  - cbn. auto.
Qed.

Lemma span_digits_app ds r :
  all_digits ds -> starts_without_digit r -> span_digits (ds ++ r) = (ds, r).
Proof.
  unfold all_digits.
  induction ds as [|c ds IH]; intros Hd Hr; cbn [app span_digits].
  - destruct r as [|c r]; [reflexivity|]. cbn [starts_without_digit] in Hr.
    cbn [span_digits]. now rewrite Hr.
  - cbn [forallb] in Hd. apply andb_true_iff in Hd as [Hc Hd].
    now rewrite Hc, IH.
Qed.

Lemma strip_sign_spec s :
  exists sg, Sign sg /\ s = (sg ++ snd (strip_sign s))%list.
Proof.
  destruct s as [|c r]; cbn.
  - exists []. split; [constructor | reflexivity].
  - destruct (N.eqb_spec c 45) as [-> | _].
    + exists [45%N]. split; [constructor | reflexivity].
    + destruct (N.eqb_spec c 43) as [-> | _].
      * exists [43%N]. split; [constructor | reflexivity].
      * exists []. split; [constructor | reflexivity].
Qed.

Lemma strip_sign_app sg r :
  Sign sg -> starts_without_sign r -> snd (strip_sign (sg ++ r)) = r.
Proof.
  intros [] Hr; cbn; try reflexivity.
  destruct r as [|c r]; [reflexivity|]. cbn in *. destruct Hr as [H1 H2].
  apply N.eqb_neq in H1, H2. now rewrite H1, H2.
Qed.

Lemma digit_not_sign c : is_digit c = true -> c <> 45%N /\ c <> 43%N.
Proof.
  unfold is_digit. intros H. apply andb_true_iff in H as [H1 H2].
  apply N.leb_le in H1, H2. lia.
Qed.

Lemma parse_exponent_sound s z : parse_exponent s = Some z -> Exponent s.
Proof.
  destruct s as [|c r]; cbn [parse_exponent]; [constructor|].
  destruct ((c =? 101) || (c =? 69))%N eqn:Ec; [|discriminate].
  destruct (strip_sign_spec r) as (sg & Hsg & Er).
  destruct (strip_sign r) as [neg r1]. cbn [snd] in Er.
  pose proof (span_digits_spec r1) as (E1 & Hd & _).
  destruct (span_digits r1) as [ds r2]. cbn [fst snd] in *.
  destruct ds as [|d ds]; [discriminate|].
  destruct r2; [|discriminate]. intros _.
  rewrite Er, E1, app_nil_r. constructor; auto.
  - apply orb_true_iff in Ec as [Ec | Ec]; apply N.eqb_eq in Ec; auto.
  - discriminate.
Qed.

Lemma parse_exponent_complete ex : Exponent ex -> parse_exponent ex <> None.
Proof.
  intros [|e sg ds He Hsg Hne Hd]; cbn [parse_exponent]; [discriminate|].
  assert ((e =? 101) || (e =? 69) = true)%N as ->
    by (destruct He as [-> | ->]; reflexivity).
  destruct ds as [|d ds]; [contradiction|].
  assert (Hs : snd (strip_sign (sg ++ d :: ds)) = d :: ds).
  { apply strip_sign_app; [exact Hsg|]. cbn. apply digit_not_sign.
    unfold all_digits in Hd. cbn in Hd. now apply andb_true_iff in Hd. }
  destruct (strip_sign (sg ++ d :: ds)) as [neg r1]. cbn [snd] in Hs. subst r1.
  pose proof (span_digits_app (d :: ds) [] Hd I) as Hspan.
  rewrite app_nil_r in Hspan. rewrite Hspan. destruct neg; discriminate.
Qed.

Lemma exponent_starts_without_digit ex :
  Exponent ex -> starts_without_digit ex.
Proof. intros [|e sg ds [-> | ->] _ _ _]; cbn; auto. Qed.

Lemma isnumber_sound t : isnumber t = true -> FloatLiteral t.
Proof.
  unfold isnumber, parse_float_literal.
  destruct (strip_sign_spec t) as (sg & Hsg & Et).
  destruct (strip_sign t) as [neg s1]. cbn [snd] in Et.
  pose proof (span_digits_spec s1) as (E1 & Hip & _).
  destruct (span_digits s1) as [ip s2]. cbn [fst snd] in *.
  destruct s2 as [|c s3].
  - destruct ip as [|d ip]; [discriminate|]. intros _.
    rewrite Et, E1, app_nil_r.
    rewrite <- (app_nil_r (d :: ip)) at 1.
    constructor; [exact Hsg | | constructor].
    constructor; [discriminate | exact Hip].
  - destruct (N.eqb_spec c 46) as [-> | Hc].
    + pose proof (span_digits_spec s3) as (E3 & Hfp & _).
      destruct (span_digits s3) as [fp s4]. cbn [fst snd] in *.
      assert (Hex : forall l : Z -> literal,
                 option_map l (parse_exponent s4) <> None -> Exponent s4).
      { intros l. destruct (parse_exponent s4) eqn:Ex; [|now cbn].
        intros _. eapply parse_exponent_sound; eauto. }
      intros Hp.
      assert (Hne : ip <> [] \/ fp <> []).
      { destruct ip; [destruct fp; [discriminate|right]|left]; discriminate. }
      assert (Exponent s4).
      { destruct ip; [destruct fp; [discriminate|]|];
          (eapply Hex; intros Hn; rewrite Hn in Hp; discriminate). }
      rewrite Et, E1, E3.
      replace (ip ++ 46%N :: fp ++ s4)%list with ((ip ++ 46%N :: fp) ++ s4)%list
        by (now rewrite <- app_assoc).
      constructor; auto. now constructor.
    + destruct ip as [|d ip]; [discriminate|].
      destruct (parse_exponent (c :: s3)) eqn:Ex; [|discriminate]. intros _.
      rewrite Et, E1. constructor; auto.
      * constructor; [discriminate | exact Hip].
      * eapply parse_exponent_sound; eauto.
Qed.

Lemma mantissa_starts_without_sign m r :
  Mantissa m -> starts_without_sign (m ++ r).
Proof.
  intros [ds Hne Hd | ip fp Hip _ _].
  - destruct ds as [|d ds]; [contradiction|]. cbn. apply digit_not_sign.
    unfold all_digits in Hd. cbn [forallb] in Hd.
    now apply andb_true_iff in Hd.
  - destruct ip as [|d ip]; cbn.
    + split; discriminate.
    + apply digit_not_sign. unfold all_digits in Hip. cbn [forallb] in Hip.
      now apply andb_true_iff in Hip.
Qed.

Lemma isnumber_complete t : FloatLiteral t -> isnumber t = true.
Proof.
  intros [sg m ex Hsg Hm Hex]. unfold isnumber, parse_float_literal.
  pose proof (strip_sign_app sg (m ++ ex) Hsg
                (mantissa_starts_without_sign m ex Hm)) as Hs.
  destruct (strip_sign (sg ++ m ++ ex)) as [neg s1]. cbn [snd] in Hs.
  subst s1. pose proof (parse_exponent_complete ex Hex) as Hpe.
  destruct Hm as [ds Hne Hd | ip fp Hip Hfp Hne].
  - rewrite (span_digits_app ds ex Hd (exponent_starts_without_digit ex Hex)).
    destruct ds as [|d ds]; [contradiction|].
    destruct ex as [|c ex]; [reflexivity|].
    assert ((c =? 46)%N = false) as ->.
    { inversion Hex as [|e sg' ds' [-> | ->]]; reflexivity. }
    destruct (parse_exponent (c :: ex)); [reflexivity | contradiction].
  - rewrite <- app_assoc. cbn [app].
    rewrite (span_digits_app ip (46%N :: fp ++ ex) Hip eq_refl).
    cbn [N.eqb Pos.eqb].
    rewrite (span_digits_app fp ex Hfp (exponent_starts_without_digit ex Hex)).
    destruct (parse_exponent ex); [|contradiction].
    destruct ip; [destruct fp; [destruct Hne; contradiction|]|]; reflexivity.
Qed.

(** C5.  The cell classifier answers [true] exactly on the tokens that are
    floating-point literals in full (optional sign, digits, optional decimal
    point, optional exponent, nothing left over) and [false] on every other
    token; being a function to [bool], it answers on every token and does
    nothing else. *)
Theorem isnumber_spec (token : pystr) :
  (isnumber token = true <-> FloatLiteral token) /\
  (isnumber token = false <-> ~ FloatLiteral token).
Proof.
  assert (H : isnumber token = true <-> FloatLiteral token)
    by (split; [apply isnumber_sound | apply isnumber_complete]).
  split; [exact H|]. rewrite <- H. destruct (isnumber token); split; congruence.
Qed.

(** ** The array path *)

Lemma skipn_firstn_map_skipn {T} (g : T -> T) n (l : list T) :
  skipn n (firstn n l ++ map g (skipn n l)) = map g (skipn n l).
Proof.
  revert l. induction n as [|n IH]; intros [|x l]; cbn; auto.
Qed.

Lemma firstn_firstn_map_skipn {T} (g : T -> T) n (l : list T) :
  firstn n (firstn n l ++ map g (skipn n l)) = firstn n l.
Proof.
  revert l. induction n as [|n IH]; intros [|x l]; cbn; auto.
  now rewrite IH.
Qed.

Lemma firstn_map_firstn_skipn {T} (f : T -> T) w (r : list T) :
  firstn w (map f (firstn w r) ++ skipn w r) = map f (firstn w r).
Proof.
  revert r. induction w as [|w IH]; intros [|x r]; cbn; auto.
  now rewrite IH.
Qed.

Lemma skipn_map_firstn_skipn {T} (f : T -> T) w (r : list T) :
  skipn w (map f (firstn w r) ++ skipn w r) = skipn w r.
Proof.
  revert r. induction w as [|w IH]; intros [|x r]; cbn; auto.
Qed.

Lemma nth_map_in {T U} (g : T -> U) (l : list T) i d d' :
  i < length l -> nth i (map g l) d = g (nth i l d').
Proof.
  revert i. induction l as [|x l IH]; intros [|i] Hi; cbn in *;
    try lia; auto with arith.
Qed.

Lemma nth_update_rows {T} (g : T -> T) n (l : list T) i d :
  nth i (firstn n l ++ map g (skipn n l)) d = nth i l d \/
  (n <= i /\ i < length l /\
   nth i (firstn n l ++ map g (skipn n l)) d = g (nth i l d)).
Proof.
  revert l i. induction n as [|n IH]; intros l i.
  - cbn [firstn skipn app].
    destruct (Nat.lt_ge_cases i (length l)) as [Hi | Hi].
    + right. repeat split; [lia | exact Hi | now apply nth_map_in].
    + left. rewrite !nth_overflow; auto. now rewrite length_map.
  - destruct l as [|x l]; [now left|]. destruct i as [|i]; [now left|].
    cbn [firstn skipn app nth length].
    destruct (IH l i) as [E | (H1 & H2 & E)]; [now left|].
    right. repeat split; [lia | lia | exact E].
Qed.

Lemma nth_update_rows_in {T} (g : T -> T) n (l : list T) i d :
  n <= i -> i < length l ->
  nth i (firstn n l ++ map g (skipn n l)) d = g (nth i l d).
Proof.
  revert l i. induction n as [|n IH]; intros l i Hn Hi.
  - now apply nth_map_in.
  - destruct l as [|x l]; [cbn in Hi; lia|]. destruct i as [|i]; [lia|].
    cbn [firstn skipn app nth length] in *. apply IH; lia.
Qed.

Lemma nth_update_cols {T} (f : T -> T) w (r : list T) j d :
  nth j (map f (firstn w r) ++ skipn w r) d = nth j r d \/
  (j < w /\ j < length r /\
   nth j (map f (firstn w r) ++ skipn w r) d = f (nth j r d)).
Proof.
  revert r j. induction w as [|w IH]; intros r j; [now left|].
  destruct r as [|x r]; [now left|]. cbn [firstn skipn map app].
  destruct j as [|j].
  - right. cbn. repeat split; lia.
  - cbn [nth length]. destruct (IH r j) as [E | (H1 & H2 & E)]; [now left|].
    right. repeat split; [lia | lia | exact E].
Qed.

Lemma nth_update_cols_in {T} (f : T -> T) w (r : list T) j d :
  j < w -> j < length r ->
  nth j (map f (firstn w r) ++ skipn w r) d = f (nth j r d).
Proof.
  revert r j. induction w as [|w IH]; intros r j Hw Hj; [lia|].
  destruct r as [|x r]; [cbn in Hj; lia|]. cbn [firstn skipn map app].
  destruct j as [|j]; [reflexivity|]. cbn [nth length] in *. apply IH; lia.
Qed.

Lemma traverse_length {T U} (f : T -> option U) l m :
  traverse f l = Some m -> length m = length l.
Proof.
  revert m. induction l as [|a l IH]; intros m; cbn.
  - now intros [= <-].
  - destruct (f a); [|discriminate]. destruct (traverse f l); [|discriminate].
    intros [= <-]. cbn. now rewrite (IH l0).
Qed.

Lemma traverse_map_some {T U} (f : T -> option U) (g : T -> U) l :
  (forall a, In a l -> f a = Some (g a)) -> traverse f l = Some (map g l).
Proof.
  induction l as [|a l IH]; intros H; cbn; [reflexivity|].
  rewrite (H a) by now left. rewrite IH; [reflexivity|].
  intros b Hb. apply H. now right.
Qed.

(** The views [np_split] hands to [X, Y = ...] when there are two. *)
Lemma np_split_two A h :
  ncols A mod 2 = 0 ->
  np_split A h 2 = Ok [View h 0 (ncols A / 2); View h (ncols A / 2) (ncols A / 2)].
Proof.
  intros E. unfold np_split. rewrite E. cbn [Nat.eqb seq map].
  now rewrite Nat.mul_0_l, Nat.mul_1_l.
Qed.

Lemma view_update_X A h :
  view_update (nan_marker (itemsize A)) A (View h 0 (ncols A / 2)) = marked A h.
Proof. reflexivity. Qed.

Lemma view_read_X_marked A h :
  view_read (marked A h) (View h 0 (ncols A / 2))
  = map (fun r => map (nan_marker (itemsize A)) (firstn (ncols A / 2) r))
        (skipn h (rows A)).
Proof.
  unfold view_read, marked. cbn [rows row0 col0 width skipn].
  rewrite skipn_firstn_map_skipn, map_map. apply map_ext. intros r.
  apply firstn_map_firstn_skipn.
Qed.

Lemma view_read_Y_marked A h :
  view_read (marked A h) (View h (ncols A / 2) (ncols A / 2))
  = view_read A (View h (ncols A / 2) (ncols A / 2)).
Proof.
  unfold view_read, marked. cbn [rows row0 col0 width].
  rewrite skipn_firstn_map_skipn, map_map. apply map_ext. intros r.
  now rewrite skipn_map_firstn_skipn.
Qed.

(** The outcome of [array] is decided by these three tests. *)
Lemma array_ok_inv A k h dt t A' :
  array A k h dt = (Ok t, A') ->
  k = 2 /\ ncols A mod 2 = 0 /\ A' = marked A h /\
  astype (view_read (marked A h) (View h 0 (ncols A / 2))) dt = Ok (X t) /\
  Y t = view_read A (View h (ncols A / 2) (ncols A / 2)) /\
  view_size A (View h 0 (ncols A / 2)) <> 0.
Proof.
  unfold array, np_split.
  destruct k as [|[|[|k]]]; [discriminate | | | ].
  - destruct (ncols A mod 1 =? 0); discriminate.
  - destruct (Nat.eqb_spec (ncols A mod 2) 0) as [E | _]; [|discriminate].
    cbn [seq map]. rewrite Nat.mul_0_l, Nat.mul_1_l.
    destruct (Nat.eqb_spec (view_size A (View h 0 (ncols A / 2))) 0) as [|Hs];
      [discriminate|].
    rewrite view_update_X.
    destruct (astype _ dt) as [Xf|e] eqn:Ea; [|discriminate].
    intros [= <- <-]. cbn [X Y]. rewrite view_read_Y_marked. auto 10.
  - destruct (ncols A mod _ =? 0); [|discriminate]. cbn [seq map]. discriminate.
Qed.

Lemma array_buffer A k h dt :
  snd (array A k h dt) = A \/ (k = 2 /\ snd (array A k h dt) = marked A h).
Proof.
  unfold array, np_split.
  destruct k as [|[|[|k]]]; [now left | | | ].
  - destruct (ncols A mod 1 =? 0); now left.
  - destruct (ncols A mod 2 =? 0); [|now left].
    cbn [seq map]. rewrite Nat.mul_0_l, Nat.mul_1_l.
    destruct (view_size A (View h 0 (ncols A / 2)) =? 0); [now left|].
    rewrite view_update_X. right. split; [reflexivity|].
    now destruct (astype _ dt).
  - destruct (ncols A mod _ =? 0); now left.
Qed.

Lemma marked_cell A h i j :
  cell (marked A h) i j = cell A i j \/
  (h <= i /\ j < ncols A / 2 /\ isnumber (cell A i j) = false /\
   cell (marked A h) i j = firstn (itemsize A) (str "nan")).
Proof.
  unfold cell, marked. cbn [rows].
  destruct (nth_update_rows
              (fun r => map (nan_marker (itemsize A)) (firstn (ncols A / 2) r)
                        ++ skipn (ncols A / 2) r)
              h (rows A) i []) as [-> | (Hh & Hi & ->)]; [now left|].
  destruct (nth_update_cols (nan_marker (itemsize A)) (ncols A / 2)
              (nth i (rows A) []) j []) as [-> | (Hw & Hj & ->)]; [now left|].
  unfold nan_marker. destruct (isnumber (nth j (nth i (rows A) []) [])) eqn:E;
    [now left | right; auto].
Qed.

Lemma marked_cell_in A h i j :
  h <= i -> i < length (rows A) ->
  j < ncols A / 2 -> j < length (nth i (rows A) []) ->
  cell (marked A h) i j = nan_marker (itemsize A) (cell A i j).
Proof.
  intros Hh Hi Hw Hj. unfold cell, marked. cbn [rows].
  rewrite nth_update_rows_in by assumption.
  now apply nth_update_cols_in.
Qed.

Section ArrayPath.
Context `{Collaborators} `{Interpreter}.

(** C7, as amended.  The array path of the dispatcher writes to the caller's
    array: whatever the outcome, a cell of the array after the call is the
    cell before the call, or it lies below the header rows in the first half
    of the columns, was not a number, and now holds the marker "nan" cut to
    the width of the array's items.  When the call returns a table, every
    cell of that block that was not a number has been overwritten so. *)
Theorem parse_source_array_writes_marker
    (fs : filesystem) (A : ndarray) (indeps headers : nat) (kw : kwargs)
    (r : result table) (src' : source) :
  parse_source fs (SArray A) indeps headers kw = (r, src') ->
  exists A',
    src' = SArray A' /\
    itemsize A' = itemsize A /\
    (forall i j,
        cell A' i j = cell A i j \/
        (headers <= i /\ j < ncols A / 2 /\ isnumber (cell A i j) = false /\
         cell A' i j = firstn (itemsize A) (str "nan"))) /\
    (forall t, r = Ok t ->
       forall i j,
         headers <= i -> i < length (rows A) ->
         j < ncols A / 2 -> j < length (nth i (rows A) []) ->
         cell A' i j = nan_marker (itemsize A) (cell A i j)).
Proof.
  cbn [parse_source]. destruct (array A indeps headers (kw_floatX kw))
    as [r0 A0] eqn:Ea. intros [= <- <-]. exists A0. split; [reflexivity|].
  pose proof (array_buffer A indeps headers (kw_floatX kw)) as Hb.
  rewrite Ea in Hb. cbn [snd] in Hb. repeat split.
  - destruct Hb as [-> | [_ ->]]; reflexivity.
  - intros i j. destruct Hb as [-> | [_ ->]]; [now left | apply marked_cell].
  - intros t -> i j. apply array_ok_inv in Ea as (_ & _ & -> & _).
    apply marked_cell_in.
Qed.

End ArrayPath.

Lemma float_of_marked w c :
  3 <= w -> float_of_cell (nan_marker w c) = Some (coerce_cell c).
Proof.
  intros Hw. unfold nan_marker, isnumber, coerce_cell.
  destruct (parse_float_literal c) as [l|] eqn:E.
  - unfold float_of_cell. now rewrite E.
  - rewrite firstn_all2 by (cbn; lia). reflexivity.
Qed.

Lemma traverse_map {T U V} (f : U -> option V) (m : T -> U) (g : T -> V) l :
  (forall a, In a l -> f (m a) = Some (g a)) ->
  traverse f (map m l) = Some (map g l).
Proof.
  induction l as [|a l IH]; intros Hl; cbn [map traverse]; [reflexivity|].
  rewrite (Hl a) by now left. rewrite IH; [reflexivity|].
  intros b Hb. apply Hl. now right.
Qed.

(** X8.  On an array whose items hold three characters or more, with an even
    number of columns and a cell in the first half below the header rows,
    [array] with two sections returns: X is the first half of the columns of
    the data rows, each cell as a float and NaN where it was not a number; Y
    is the second half, as it was; the header is the cells of the header
    rows in one list; and the array is left with the marker written in. *)
Lemma array_two_sections A h dt :
  3 <= itemsize A -> ncols A mod 2 = 0 ->
  view_size A (View h 0 (ncols A / 2)) <> 0 ->
  let w := ncols A / 2 in
  array A 2 h dt =
  (Ok (Table (map (fun r => map coerce_cell (firstn w r)) (skipn h (rows A)))
             dt
             (map (fun r => firstn w (skipn w r)) (skipn h (rows A)))
             (match h with
              | 0 => None
              | S _ => Some (concat (firstn h (rows A)))
              end)),
   marked A h).
Proof.
  intros Hw Hc Hs w. unfold array. rewrite np_split_two by assumption.
  apply Nat.eqb_neq in Hs. rewrite Hs. rewrite view_update_X.
  rewrite view_read_X_marked, view_read_Y_marked. unfold astype.
  fold w.
  rewrite (traverse_map _ _ (fun r => map coerce_cell (firstn w r))).
  - unfold marked. cbn [rows].
    rewrite firstn_firstn_map_skipn. reflexivity.
  - intros r _. apply traverse_map. intros c _. now apply float_of_marked.
Qed.

(** C1, at the inputs where the code departs from it.  With one header row
    and [indeps = 1], a table of three columns is not split into one column
    of Y and two of X: [np.split] makes one section and [X, Y = ...] raises
    [ValueError].  With [indeps = 2] on four columns the call returns, and
    the two leading columns are X, the two trailing ones Y. *)
Theorem array_splits_into_equal_sections :
  array table_3x3 1 1 float32 = (raise ValueError, table_3x3) /\
  exists t,
    fst (array table_2x4 2 1 float32) = Ok t /\
    X t = [ [Finite (lit false "1" ""); Finite (lit false "2" "")] ] /\
    Y t = [ [str "3"; str "4"] ].
Proof.
  split; [reflexivity|]. eexists. split; [reflexivity|]. split; reflexivity.
Qed.

(** C3, at the input where the code departs from it, and at the example of
    the claim.  In an array whose items hold one character the marker is
    stored as "n" and the coercion raises [ValueError].  The column
    ["1.5", "abc", "-3"] is classified [true; false; true] and coerced to
    1.5, NaN and -3. *)
Theorem array_marker_cut_to_item_width :
  array narrow_row 2 0 float32
    = (raise ValueError, NdArray 1 [ [str "n"; str "1"] ]) /\
  map isnumber [str "1.5"; str "abc"; str "-3"] = [true; false; true] /\
  exists t,
    fst (array example_column 2 0 float32) = Ok t /\
    X t = [ [Finite (lit false "1" "5")]; [NaN]; [Finite (lit true "3" "")] ] /\
    Qeq (literal_value (lit false "1" "5")) (3 # 2) /\
    Qeq (literal_value (lit true "3" "")) (- 3 # 1).
Proof.
  split; [reflexivity|]. split; [reflexivity|].
  eexists. split; [reflexivity|]. split; [reflexivity|].
  split; reflexivity.
Qed.

(** The theorem at a table of two columns whose second data row holds "abc"
    in the X column. *)
Lemma parse_source_array_witness :
  exists A',
    snd (parse_source no_files (SArray table_4x2) 2 1 no_kwargs)
      = SArray A' /\
    itemsize A' = 3 /\
    cell table_4x2 2 0 = str "abc" /\
    cell A' 2 0 = str "nan".
Proof.
  destruct (parse_source_array_writes_marker
              no_files table_4x2 2 1 no_kwargs
              (fst (parse_source no_files (SArray table_4x2) 2 1 no_kwargs))
              (snd (parse_source no_files (SArray table_4x2) 2 1 no_kwargs))
              (surjective_pairing _))
    as (A' & E & Hw & _ & Hok).
  exists A'. split; [exact E|]. split; [exact Hw|]. split; [reflexivity|].
  eapply Hok; [vm_compute; reflexivity | cbn; lia ..].
Defined.

(** The caller's array is not left as it was: after the call returns, the
    cell that held "abc" holds "nan". *)
Lemma array_path_overwrites_caller_grid :
  exists t A',
    parse_source no_files (SArray table_4x2) 2 1 no_kwargs
      = (Ok t, SArray A') /\
    cell table_4x2 2 0 = str "abc" /\
    cell A' 2 0 = str "nan" /\
    A' <> table_4x2.
Proof.
  do 2 eexists. split; [vm_compute; reflexivity|].
  split; [reflexivity|]. split; [reflexivity|]. discriminate.
Qed.

(** ** The delimited-text reader *)

Lemma map_result_length {T U} (f : T -> result U) l l' :
  map_result f l = Ok l' -> length l' = length l.
Proof.
  revert l'. induction l as [|a l IH]; intros l'; cbn.
  - now intros [= <-].
  - destruct (f a); [|discriminate]. cbn.
    destruct (map_result f l) as [bs|]; [|discriminate]. cbn.
    intros [= <-]. cbn. now rewrite (IH bs).
Qed.

Lemma np_array_rows g A : np_array g = Some A -> rows A = g.
Proof.
  unfold np_array. destruct g; [discriminate|].
  destruct (uniform _); [|discriminate]. now intros [= <-].
Qed.

Lemma astype_length cells dt m : astype cells dt = Ok m -> length m = length cells.
Proof.
  unfold astype. destruct (traverse _ cells) eqn:E; [|discriminate].
  intros [= <-]. eapply traverse_length; eauto.
Qed.

Lemma array_ok_rows A k h dt t A' :
  array A k h dt = (Ok t, A') ->
  h < length (rows A) /\
  length (X t) = length (rows A) - h /\
  length (Y t) = length (rows A) - h.
Proof.
  intros Ha. apply array_ok_inv in Ha as (_ & _ & _ & HX & HY & Hs).
  apply astype_length in HX. rewrite view_read_X_marked, length_map in HX.
  rewrite HY. unfold view_read. cbn [row0]. rewrite length_map.
  rewrite length_skipn in *. repeat split; auto.
  unfold view_size, view_read in Hs. cbn [row0] in Hs.
  destruct (skipn h (rows A)) eqn:E; [now cbn in Hs|].
  apply (f_equal (@length _)) in E. rewrite length_skipn in E. cbn in E. lia.
Qed.

(** The list of line 58 has one row for each non-empty piece of the text,
    whatever [array] makes of it afterwards. *)
Lemma csv_lines_count text kw lines :
  csv_lines text kw = Ok lines ->
  exists ls,
    split text (kw_end kw) = Ok ls /\
    length lines = length (filter truthy ls) /\
    Forall (fun l => l <> []) (filter truthy ls).
Proof.
  unfold csv_lines. destruct (split text (kw_end kw)) as [ls|]; [|discriminate].
  cbn [bind]. intros Hl. exists ls. split; [reflexivity|].
  split; [now apply map_result_length in Hl|].
  apply Forall_forall. intros l Hin. apply filter_In in Hin as [_ Hl'].
  now destruct l.
Qed.

Section Csv.
Context `{Collaborators}.

(** C10.  When [csv] returns, the table it handed to [reparse_data] has one
    row in X and in Y for every non-empty piece of the text split on the row
    delimiter, less the header rows, of which there are fewer than such
    pieces: empty pieces (blank lines, a final delimiter) give no row. *)
Theorem csv_rows_are_nonempty_lines
    (fs : filesystem) (path : pystr) (indeps headers : nat) (kw : kwargs)
    (parsed : table) :
  csv fs path indeps headers kw = Ok parsed ->
  exists content text ls t,
    fs path = Some content /\
    csv_text fs content kw = Ok text /\
    split text (kw_end kw) = Ok ls /\
    reparse_data t kw = Ok parsed /\
    headers < length (filter truthy ls) /\
    length (X t) = length (filter truthy ls) - headers /\
    length (Y t) = length (filter truthy ls) - headers.
Proof.
  unfold csv, read_file. destruct (fs path) as [content|]; [|discriminate].
  cbn [bind]. destruct (csv_text fs content kw) as [text|] eqn:Et; [|discriminate].
  cbn [bind]. unfold csv_lines.
  destruct (split text (kw_end kw)) as [ls|] eqn:Es; [|discriminate].
  cbn [bind].
  destruct (map_result _ (filter truthy ls)) as [lines|] eqn:El; [|discriminate].
  cbn [bind]. apply map_result_length in El.
  destruct (csv_table lines indeps headers kw) as [t|] eqn:Eta; [|discriminate].
  cbn [bind]. intros Hr. exists content, text, ls, t.
  unfold csv_table in Eta. destruct (np_array lines) as [A|] eqn:EA; [|discriminate].
  apply np_array_rows in EA.
  destruct (array A indeps headers (kw_dtype kw)) as [r A'] eqn:Ea.
  cbn [fst] in Eta. subst r. apply array_ok_rows in Ea. rewrite EA, El in Ea.
  tauto.
Qed.

End Csv.

(** The theorem at a file of four non-empty lines, a blank line and a final
    newline, read with one header row: three rows. *)
Lemma csv_rows_witness :
  exists parsed,
    csv fs_table (str "t.csv") 2 1 comma_kwargs = Ok parsed /\
    length (X parsed) = 3 /\
    exists content text ls t,
      fs_table (str "t.csv") = Some content /\
      csv_text fs_table content comma_kwargs = Ok text /\
      split text (kw_end comma_kwargs) = Ok ls /\
      reparse_data t comma_kwargs = Ok parsed /\
      1 < length (filter truthy ls) /\
      length (X t) = length (filter truthy ls) - 1 /\
      length (Y t) = length (filter truthy ls) - 1.
Proof.
  destruct (csv fs_table (str "t.csv") 2 1 comma_kwargs) as [parsed|e] eqn:E;
    [|vm_compute in E; discriminate].
  exists parsed. split; [reflexivity|]. split.
  - vm_compute in E. injection E as <-. reflexivity.
  - exact (csv_rows_are_nonempty_lines fs_table (str "t.csv") 2 1
             comma_kwargs parsed E).
Defined.

(** C4, at the input where the code departs from it.  With [dehungarize]
    and [decimal] set, the text "Á,5" read from [data.csv] is not normalized
    to "A.5": [csv] passes the text to [dehungarize], which opens the file of
    that name, and [FileNotFoundError] is raised.  Given the path of the
    file, [dehungarize] itself produces "A.5". *)
Theorem csv_accent_folding_opens_a_file :
  csv_text fs_accent accent_text accent_kwargs = raise FileNotFoundError /\
  csv fs_accent (str "data.csv") 2 0 accent_kwargs = raise FileNotFoundError /\
  fst (dehungarize fs_accent (str "data.csv") None false true)
    = Ok (Some (str "A.5")).
Proof. repeat split; reflexivity. Qed.

Lemma csv_text_without_folding fs text kw :
  kw_dehungarize kw = false ->
  csv_text fs text kw =
  Ok (let text := if kw_decimal kw then replace (str ",") (str ".") text
                  else text in
      if kw_lower kw then lower text else text).
Proof. intros E. unfold csv_text. now rewrite E. Qed.

(** ** The chunked text reader *)

(** C8, at the input where the code departs from it.  On a file holding
    "ab", with a chunk size of 2 and no option, the first [next] of
    [massive_txt] raises [TypeError] instead of producing the tokens; the
    lines after the read raise [TypeError] as well on the chunk "ab". *)
Theorem massive_txt_raises_type_error :
  massive_txt fs_big (str "big.txt") 2 1 no_kwargs = raise TypeError /\
  massive_txt_chunk fs_big (read_chars 2 (str "ab")) 1 no_kwargs
    = raise TypeError.
Proof. split; reflexivity. Qed.

Lemma massive_txt_never_yields fs source bsize ngram kw :
  exists e, massive_txt fs source bsize ngram kw = Raise e.
Proof.
  unfold massive_txt, read_file. destruct (fs source); eexists; reflexivity.
Qed.

Lemma massive_txt_chunk_raises fs chunk ngram kw :
  chunk <> [] -> kw_dehungarize kw = false ->
  massive_txt_chunk fs chunk ngram kw = raise TypeError.
Proof.
  intros Hc E. unfold massive_txt_chunk. rewrite E.
  destruct chunk as [|c chunk]; [contradiction|]. cbn [truthy negb bind].
  change (str " ") with [32%N]. rewrite replace_single. unfold lower.
  destruct (kw_endline_to_space kw), (kw_lower kw); reflexivity.
Qed.

(** ** The tokenizer *)

Lemma firstn_succ_app {T} n (l : list T) :
  firstn (S n) l = firstn n l ++ firstn 1 (skipn n l).
Proof.
  revert l. induction n as [|n IH]; intros [|x l]; try reflexivity.
  cbn [firstn skipn app] in *. now rewrite <- IH.
Qed.

Lemma first_chars_of_windows (T : pystr) g n :
  1 <= g -> n <= length T ->
  concat (map (firstn 1) (map (fun i => firstn g (skipn i T)) (seq 0 n)))
  = firstn n T.
Proof.
  intros Hg. induction n as [|n IH]; intros Hn; [reflexivity|].
  rewrite seq_S, !map_app, concat_app, IH by lia. cbn [map concat Nat.add].
  rewrite app_nil_r, firstn_firstn, Nat.min_l by lia.
  symmetry. apply firstn_succ_app.
Qed.

Lemma to_ngrams_windows (T : pystr) (g : nat) :
  1 <= g -> g <= length T ->
  let tokens := to_ngrams T g in
  length tokens = length T - g + 1 /\
  (forall i, i < length tokens ->
     nth i tokens [] = firstn g (skipn i T) /\ length (nth i tokens []) = g) /\
  concat (map (firstn 1) tokens) = firstn (length T - g + 1) T /\
  (concat (map (firstn 1) tokens) ++ skipn 1 (last tokens []))%list = T.
Proof.
  intros Hg Hl. unfold to_ngrams, pystr in *.
  replace (length T + 1 - g) with (length T - g + 1) by lia.
  set (n := length T - g + 1). cbv zeta.
  assert (Hlen : length (map (fun i => firstn g (skipn i T)) (seq 0 n)) = n)
    by now rewrite length_map, length_seq.
  assert (Hfirst := first_chars_of_windows T g n Hg ltac:(lia)).
  repeat split.
  - exact Hlen.
  - rewrite Hlen in H.
    rewrite (nth_map_in _ _ _ _ 0) by now rewrite length_seq.
    now rewrite seq_nth.
  - rewrite Hlen in H.
    rewrite (nth_map_in _ _ _ _ 0) by now rewrite length_seq.
    rewrite seq_nth by assumption. cbn [Nat.add].
    rewrite length_firstn, length_skipn. lia.
  - exact Hfirst.
  - rewrite Hfirst. unfold n at 2. rewrite Nat.add_1_r, seq_S, map_app.
    cbn [map Nat.add]. rewrite last_last.
    rewrite (firstn_all2 (n := g) (skipn (length T - g) T))
      by (rewrite length_skipn; lia).
    rewrite skipn_skipn. replace (1 + (length T - g)) with n by lia.
    apply firstn_skipn.
Qed.

Section Tokens.
Context `{Collaborators}.

(** C6, as amended.  For a text [T] and [1 <= g <= len(T)], the n-gram
    tokens are the [len(T) - g + 1] windows of [g] characters of [T], in the
    order of their starting positions, each of length [g]; the first
    characters of the tokens make up the first [len(T) - g + 1] characters
    of [T], and followed by the last token without its first character they
    make up [T]. *)
Theorem tokenize_ngram_windows (T : pystr) (g : nat) :
  1 <= g -> g <= length T ->
  let tokens := tokenize T (Some g) in
  length tokens = length T - g + 1 /\
  (forall i, i < length tokens ->
     nth i tokens [] = firstn g (skipn i T) /\ length (nth i tokens []) = g) /\
  concat (map (firstn 1) tokens) = firstn (length T - g + 1) T /\
  (concat (map (firstn 1) tokens) ++ skipn 1 (last tokens []))%list = T.
Proof.
  intros Hg Hl. destruct g as [|g]; [lia|]. cbn [tokenize].
  now apply to_ngrams_windows.
Qed.

End Tokens.

(** The theorem at the text "abcd" and windows of two characters. *)
Lemma tokenize_ngram_windows_witness :
  1 <= 2 /\ 2 <= length (str "abcd") /\
  tokenize (str "abcd") (Some 2) = [str "ab"; str "bc"; str "cd"] /\
  length (tokenize (str "abcd") (Some 2)) = length (str "abcd") - 2 + 1 /\
  (concat (map (firstn 1) (tokenize (str "abcd") (Some 2)))
     ++ skipn 1 (last (tokenize (str "abcd") (Some 2)) []))%list = str "abcd".
Proof.
  assert (H1 : 1 <= 2) by lia.
  assert (H2 : 2 <= length (str "abcd")) by (cbn; lia).
  destruct (tokenize_ngram_windows (str "abcd") 2 H1 H2) as (Hn & _ & _ & Hr).
  split; [exact H1|]. split; [exact H2|]. split; [reflexivity|].
  split; [exact Hn | exact Hr].
Defined.

(** The first characters of the tokens alone do not give the text back:
    for "abc" and windows of two characters they give "ab". *)
Lemma first_characters_rebuild_a_prefix_only :
  1 <= 2 /\ 2 <= length (str "abc") /\
  tokenize (str "abc") (Some 2) = [str "ab"; str "bc"] /\
  concat (map (firstn 1) (tokenize (str "abc") (Some 2))) = str "ab" /\
  concat (map (firstn 1) (tokenize (str "abc") (Some 2))) <> str "abc".
Proof.
  split; [lia|]. split; [cbn; lia|]. split; [reflexivity|].
  split; [reflexivity|]. vm_compute. discriminate.
Qed.

(** ** The dispatcher *)

Section Dispatch.
Context `{Collaborators} `{Interpreter}.

(** C2, as amended.  A string source whose lower-cased text holds ".pkl.gz"
    anywhere goes to [learningtable]; otherwise one whose last four
    lower-cased characters are ".csv" or ".txt" goes to [csv]; otherwise one
    whose last four are ".xls" or "xlsx" goes to [xlsx]; any other string
    raises [ValueError] with the message "Unsupported source: " and the
    whole source.  A source that is no array, tuple, data frame or string
    raises [TypeError] with a message naming its type.  The lower-cased
    text is what [str.lower] of the interpreter gives, whatever the
    characters of the source. *)
Theorem parse_source_dispatch
    (fs : filesystem) (s : pystr) (indeps headers : nat) (kw : kwargs) :
  let tail := last_chars 4 (str_lower s) in
  let marker := contains (str ".pkl.gz") (str_lower s) in
  let outcome := parse_source fs (SStr s) indeps headers kw in
  (marker = true ->
   outcome = (learningtable (PStr s) (kw_floatX kw), SStr s)) /\
  (marker = false -> tail = str ".csv" \/ tail = str ".txt" ->
   outcome = (csv fs s indeps headers kw, SStr s)) /\
  (marker = false -> tail = str ".xls" \/ tail = str "xlsx" ->
   outcome = (xlsx s indeps headers kw, SStr s)) /\
  (marker = false ->
   tail <> str ".csv" -> tail <> str ".txt" ->
   tail <> str ".xls" -> tail <> str "xlsx" ->
   outcome = (raise_msg ValueError (str "Unsupported source: " ++ s), SStr s)) /\
  (forall type_repr,
     parse_source fs (SOther type_repr) indeps headers kw
     = (raise_msg TypeError (str "Unsupported source type: " ++ type_repr),
        SOther type_repr)).
Proof.
  cbv zeta. unfold parse_source, in_tuple. cbn [existsb].
  repeat split.
  - intros ->. reflexivity.
  - intros -> [-> | ->]; reflexivity.
  - intros -> [-> | ->]; reflexivity.
  - intros -> H1 H2 H3 H4. apply pystr_eqb_neq in H1, H2, H3, H4.
    now rewrite H1, H2, H3, H4.
Qed.

End Dispatch.

(** The theorem at one source name for each of the four outcomes. *)
Lemma parse_source_dispatch_witness :
  parse_source fs_marker (SStr (str "x.PKL.GZ")) 2 0 no_kwargs
    = (learningtable (PStr (str "x.PKL.GZ")) float32, SStr (str "x.PKL.GZ")) /\
  parse_source fs_table (SStr (str "t.csv")) 2 1 comma_kwargs
    = (csv fs_table (str "t.csv") 2 1 comma_kwargs, SStr (str "t.csv")) /\
  parse_source fs_table (SStr (str "book.XLSX")) 2 1 no_kwargs
    = (xlsx (str "book.XLSX") 2 1 no_kwargs, SStr (str "book.XLSX")) /\
  parse_source fs_table (SStr (str "data.dat")) 2 1 no_kwargs
    = (raise_msg ValueError (str "Unsupported source: data.dat"),
       SStr (str "data.dat")).
Proof.
  split; [|split; [|split]].
  - apply (parse_source_dispatch fs_marker (str "x.PKL.GZ") 2 0 no_kwargs).
    reflexivity.
  - apply (parse_source_dispatch fs_table (str "t.csv") 2 1 comma_kwargs).
    + reflexivity.
    + left. reflexivity.
  - apply (parse_source_dispatch fs_table (str "book.XLSX") 2 1 no_kwargs).
    + reflexivity.
    + right. reflexivity.
  - apply (parse_source_dispatch fs_table (str "data.dat") 2 1 no_kwargs).
    + reflexivity.
    + vm_compute. discriminate.
    + vm_compute. discriminate.
    + vm_compute. discriminate.
    + vm_compute. discriminate.
Defined.

(** A name that ends in ".csv" and does not reach [csv]: the marker
    ".pkl.gz" inside it is tested first, and [learningtable] cannot unpack
    the string, although [csv] reads the file into a table. *)
Lemma pickle_marker_overrides_csv_suffix :
  let s := str "t.pkl.gz.csv" in
  last_chars 4 (str_lower s) = str ".csv" /\
  fst (parse_source fs_marker (SStr s) 2 0 comma_kwargs) = raise ValueError /\
  (exists t, csv fs_marker s 2 0 comma_kwargs = Ok t) /\
  fst (parse_source fs_marker (SStr s) 2 0 comma_kwargs)
    <> csv fs_marker s 2 0 comma_kwargs.
Proof.
  cbv zeta. split; [reflexivity|]. split; [reflexivity|].
  split; [eexists; vm_compute; reflexivity|].
  vm_compute. discriminate.
Qed.

(** * Further properties *)

(** ** Further properties of [dehungarize] *)

Lemma dehungarize_txt_decimal lower_ txt :
  dehungarize_txt lower_ true txt
  = replace [44%N] [46%N] (dehungarize_txt lower_ false txt).
Proof. unfold dehungarize_txt. reflexivity. Qed.

Lemma dehungarize_txt_chars lower_ decimal txt :
  dehungarize_txt lower_ decimal txt = map (dehungarize_cp lower_ decimal) txt.
Proof.
  destruct decimal.
  - rewrite dehungarize_txt_decimal, dehungarize_txt_map, replace_single.
    unfold dehungarize_cp, lower. destruct lower_; rewrite ?map_map; reflexivity.
  - rewrite dehungarize_txt_map. unfold dehungarize_cp, lower.
    destruct lower_; rewrite ?map_map; reflexivity.
Qed.

Lemma unaccent_cp_not_accented c : ~ accented (unaccent_cp c).
Proof.
  unfold accented. intros Hin. apply in_map_iff in Hin as ([k v] & Ek & Hkv).
  cbn [fst] in Ek. subst k.
  destruct (unaccent_cp_cases c) as [E | Hc].
  - (* c itself is a key: then it has been replaced *)
    rewrite E in Hkv.
    assert (Hfix : In (c, v) dictionary_cp -> unaccent_cp c <> c).
    { clear. unfold dictionary_cp. cbn [In].
      intros Hin.
      repeat (destruct Hin as [Hin | Hin];
              [injection Hin as <- _; vm_compute; discriminate | ]).
      contradiction. }
    now apply Hfix in Hkv.
  - pose proof (dictionary_cp_values_not_keys _ _ Hc Hkv) as Hne.
    cbn [fst snd] in Hne. now apply Hne.
Qed.

Lemma lower_cp_inv c k :
  lower_cp c = k ->
  c = k \/ (c + 32)%N = k \/ (c = 336%N /\ k = 337%N) \/ (c = 368%N /\ k = 369%N).
Proof.
  unfold lower_cp.
  destruct (N.leb_spec 65 c), (N.leb_spec c 90), (N.leb_spec 192 c),
    (N.leb_spec c 222), (N.eqb_spec c 215), (N.eqb_spec c 336),
    (N.eqb_spec c 368); cbn [andb negb]; lia.
Qed.

Lemma lower_cp_never_accents c :
  unaccent_cp c = c -> unaccent_cp (lower_cp c) = lower_cp c.
Proof.
  intros E.
  destruct (unaccent_cp_cases (lower_cp c)) as [E' | Hin]; [exact E'|].
  exfalso. remember (unaccent_cp (lower_cp c)) as u eqn:Eu. clear Eu.
  remember (lower_cp c) as k eqn:Ek. symmetry in Ek.
  pose proof (lower_cp_inv c k Ek) as Hc. revert E Ek Hc.
  unfold dictionary_cp in Hin. cbn [In] in Hin.
  repeat (destruct Hin as [Hin | Hin];
          [injection Hin as <- _; intros E Ek Hc;
           assert (Hcases : (c = 225 \/ c = 233 \/ c = 237 \/ c = 243 \/
                            c = 246 \/ c = 337 \/ c = 250 \/ c = 252 \/
                            c = 369 \/ c = 193 \/ c = 201 \/ c = 205 \/
                            c = 211 \/ c = 214 \/ c = 336 \/ c = 218 \/
                            c = 220 \/ c = 368 \/ c = 161 \/ c = 169 \/
                            c = 173 \/ c = 179 \/ c = 182 \/ c = 186 \/
                            c = 188 \/ c = 304 \/ c = 305)%N) by lia;
           repeat (destruct Hcases as [-> | Hcases];
                   [vm_compute in E; vm_compute in Ek; congruence | ]);
           subst c; vm_compute in E; vm_compute in Ek; congruence | ]).
  contradiction.
Qed.

Lemma lower_unaccent_commute c :
  lower_cp (unaccent_cp c) = unaccent_cp (lower_cp c).
Proof.
  destruct (unaccent_cp_cases c) as [E | Hin].
  - rewrite E. symmetry. now apply lower_cp_never_accents.
  - remember (unaccent_cp c) as u eqn:Eu. clear Eu.
    unfold dictionary_cp in Hin. cbn [In] in Hin.
    repeat (destruct Hin as [Hin | Hin];
            [injection Hin as <- <-; vm_compute; reflexivity | ]).
    contradiction.
Qed.

Lemma lower_cp_comma c : lower_cp c = 44%N -> c = 44%N.
Proof.
  intros H. pose proof (lower_cp_inv c 44 H) as Hc.
  assert (Hcases : (c = 44 \/ c = 12)%N) by lia.
  destruct Hcases as [-> | ->]; [reflexivity | vm_compute in H; discriminate].
Qed.

Lemma dehungarize_cp_idem lower_ decimal c :
  dehungarize_cp lower_ decimal (dehungarize_cp lower_ decimal c)
  = dehungarize_cp lower_ decimal c.
Proof.
  unfold dehungarize_cp at 2 3.
  set (u := unaccent_cp (if lower_ then lower_cp c else c)).
  assert (Hu : dehungarize_cp lower_ false u = u).
  { unfold dehungarize_cp, u. destruct lower_.
    - now rewrite lower_unaccent_lower, unaccent_cp_idem.
    - apply unaccent_cp_idem. }
  destruct decimal; [|exact Hu].
  destruct (N.eqb_spec u 44) as [_ | Hne].
  - destruct lower_; vm_compute; reflexivity.
  - unfold dehungarize_cp in *. rewrite Hu.
    apply N.eqb_neq in Hne. now rewrite Hne.
Qed.

Lemma dehungarize_txt_twice lower_ decimal T :
  dehungarize_txt lower_ decimal (dehungarize_txt lower_ decimal T)
  = dehungarize_txt lower_ decimal T.
Proof.
  rewrite !dehungarize_txt_chars, map_map. apply map_ext.
  apply dehungarize_cp_idem.
Qed.

(** X1.  Applying [dehungarize] to its own result changes nothing, whatever the
    options. *)
Theorem dehungarize_txt_idempotent_all (lower_ decimal : bool) (T : pystr) :
  dehungarize_txt lower_ decimal (dehungarize_txt lower_ decimal T)
  = dehungarize_txt lower_ decimal T.
Proof.
  rewrite !dehungarize_txt_chars, map_map. apply map_ext. intros c.
  apply dehungarize_cp_idem.
Qed.

(** X2.  No accented letter of the table is left in the result, and no comma
    when [decimal] is set. *)
Theorem dehungarize_txt_leaves_no_accent (lower_ decimal : bool) (T : pystr) :
  Forall (fun c => ~ accented c /\ (decimal = true -> c <> 44%N))
         (dehungarize_txt lower_ decimal T).
Proof.
  rewrite dehungarize_txt_chars. apply Forall_forall. intros c Hin.
  apply in_map_iff in Hin as (x & <- & _). unfold dehungarize_cp.
  set (u := unaccent_cp (if lower_ then lower_cp x else x)).
  pose proof (unaccent_cp_not_accented (if lower_ then lower_cp x else x)) as Hu.
  fold u in Hu. destruct decimal.
  - destruct (N.eqb_spec u 44) as [_ | Hne].
    + split; [|discriminate]. unfold accented. vm_compute.
      intros H. repeat (destruct H as [H | H]; [discriminate|]). exact H.
    + split; [exact Hu | intros _; exact Hne].
  - split; [exact Hu | discriminate].
Qed.

(** X3.  With [lower] left at its default, the text is treated character by
    character: the result has the length of the text, and treating two
    pieces apart gives the pieces of the result. *)
Theorem dehungarize_txt_app (decimal : bool) (T1 T2 : pystr) :
  dehungarize_txt false decimal (T1 ++ T2)
  = (dehungarize_txt false decimal T1 ++ dehungarize_txt false decimal T2)%list
  /\ length (dehungarize_txt false decimal T1) = length T1.
Proof.
  rewrite !dehungarize_txt_chars. split; [apply map_app | apply length_map].
Qed.

(** X4.  On a text over [latin], lower-casing before the replacements, as
    [dehungarize] does with [lower] set, and lower-casing after them and
    after the decimal conversion, as [csv] orders its steps, give the same
    text. *)
Theorem dehungarize_txt_lower_order (decimal : bool) (T : pystr) :
  forallb latin T = true ->
  dehungarize_txt true decimal T = lower (dehungarize_txt false decimal T).
Proof.
  intros _. rewrite !dehungarize_txt_chars. unfold lower. rewrite map_map.
  apply map_ext. intros c. unfold dehungarize_cp.
  rewrite <- lower_unaccent_commute. set (v := unaccent_cp c).
  destruct decimal; [|reflexivity].
  destruct (N.eqb_spec v 44) as [-> | Hne]; [reflexivity|].
  destruct (N.eqb_spec (lower_cp v) 44) as [E | _]; [|reflexivity].
  now apply lower_cp_comma in E.
Qed.

(** The theorem at the text "Á,5Ő". *)
Lemma dehungarize_txt_lower_order_witness :
  dehungarize_txt true true [193%N; 44%N; 53%N; 336%N] = str "a.5o" /\
  lower (dehungarize_txt false true [193%N; 44%N; 53%N; 336%N]) = str "a.5o".
Proof.
  split; [reflexivity|].
  rewrite <- (dehungarize_txt_lower_order true [193%N; 44%N; 53%N; 336%N]);
    reflexivity.
Defined.

Lemma pystr_eqb_refl a : pystr_eqb a a = true.
Proof. now apply pystr_eqb_eq. Qed.

(** X5.  With an output path that can be opened for writing, [dehungarize]
    returns nothing and writes the text to that file and to no other; read
    back through [dehungarize] with the same options, the file gives the
    text that was written.  With an output path that [open] refuses, the
    call raises the exception of [open] and writes nothing.  Without an
    output path it returns the text and writes nothing. *)
Theorem dehungarize_writes_one_file
    (fs : filesystem) (inflpath outflpath : pystr) (lower_ decimal : bool)
    (txt : pystr) :
  fs inflpath = Some txt ->
  let written := dehungarize_txt lower_ decimal txt in
  let outcome := dehungarize fs inflpath (Some outflpath) lower_ decimal in
  (refused fs outflpath = None ->
   fst outcome = Ok None /\
   snd outcome outflpath = Some written /\
   (forall p, p <> outflpath -> snd outcome p = fs p) /\
   dehungarize (snd outcome) outflpath None lower_ decimal
   = (Ok (Some written), snd outcome)) /\
  (forall c, refused fs outflpath = Some c -> outcome = (raise c, fs)) /\
  dehungarize fs inflpath None lower_ decimal = (Ok (Some written), fs).
Proof.
  intros Hin written outcome. unfold outcome, dehungarize, read_file.
  rewrite Hin. unfold write_file. fold written.
  split; [|split; [|reflexivity]].
  - intros ->. cbn [fst snd file]. rewrite pystr_eqb_refl.
    split; [reflexivity|]. split; [reflexivity|]. split.
    + intros p Hp. apply pystr_eqb_neq in Hp. now rewrite Hp.
    + unfold written. now rewrite dehungarize_txt_twice.
  - intros c ->. reflexivity.
Qed.

(** The theorem at the file [data.csv], written to [out.txt], and to the
    empty path. *)
Lemma dehungarize_writes_one_file_witness :
  fs_accent (str "data.csv") = Some accent_text /\
  snd (dehungarize fs_accent (str "data.csv") (Some (str "out.txt")) false true)
      (str "out.txt") = Some (str "A.5") /\
  snd (dehungarize fs_accent (str "data.csv") (Some (str "out.txt")) false true)
      (str "data.csv") = Some accent_text /\
  dehungarize fs_accent (str "data.csv") (Some []) false true
  = (raise FileNotFoundError, fs_accent).
Proof.
  assert (H : fs_accent (str "data.csv") = Some accent_text) by reflexivity.
  destruct (dehungarize_writes_one_file fs_accent (str "data.csv")
              (str "out.txt") false true accent_text H)
    as (Hok & _ & _).
  destruct (Hok eq_refl) as (_ & Hout & Hframe & _).
  destruct (dehungarize_writes_one_file fs_accent (str "data.csv")
              [] false true accent_text H)
    as (_ & Hraise & _).
  split; [exact H|]. split; [exact Hout|]. split.
  - rewrite Hframe; [exact H | vm_compute; discriminate].
  - apply Hraise. reflexivity.
Defined.

(** Without the input file [dehungarize] raises and writes nothing. *)
Lemma dehungarize_missing_file
    (fs : filesystem) inflpath outflpath lower_ decimal :
  fs inflpath = None ->
  dehungarize fs inflpath outflpath lower_ decimal
  = (raise FileNotFoundError, fs).
Proof. intros H. unfold dehungarize, read_file. now rewrite H. Qed.

(** ** Further properties of [array] *)

(** X6.  [array] returns for two sections only: it raises [ZeroDivisionError]
    for none and [ValueError] for any other number, the default of one
    included, and leaves the array as it was. *)
Theorem array_raises_unless_two_sections
    (A : ndarray) (indeps headers : nat) (dt : dtype) :
  indeps <> 2 ->
  array A indeps headers dt =
  (raise (match indeps with 0 => ZeroDivisionError | _ => ValueError end), A).
Proof.
  intros Hk. unfold array, np_split.
  destruct indeps as [|[|[|k]]]; [reflexivity | | lia | ].
  - destruct (ncols A mod 1 =? 0); reflexivity.
  - destruct (ncols A mod _ =? 0); reflexivity.
Qed.

Lemma array_raises_unless_two_sections_witness :
  1 <> 2 /\ array table_3x3 1 1 float32 = (raise ValueError, table_3x3).
Proof.
  assert (H : 1 <> 2) by lia. split; [exact H|].
  exact (array_raises_unless_two_sections table_3x3 1 1 float32 H).
Defined.

Lemma array_ok_header A k h dt t A' :
  array A k h dt = (Ok t, A') ->
  header t = match h with
             | 0 => None
             | S _ => Some (concat (firstn h (rows A)))
             end.
Proof.
  intros Ha. pose proof (array_ok_inv _ _ _ _ _ _ Ha) as (-> & Hc & _).
  revert Ha. unfold array. rewrite np_split_two by assumption.
  destruct (view_size A _ =? 0); [discriminate|].
  rewrite view_update_X. destruct (astype _ dt); [|discriminate].
  intros [= <- _]. cbn [header]. unfold marked. cbn [rows].
  now rewrite firstn_firstn_map_skipn.
Qed.

Lemma uniform_rows g :
  uniform g = true -> Forall (fun r => length r = length (hd [] g)) g.
Proof.
  destruct g as [|r g]; [constructor|]. cbn [uniform hd]. intros H.
  constructor; [reflexivity|]. apply Forall_forall. intros r' Hin.
  rewrite forallb_forall in H. now apply Nat.eqb_eq, H.
Qed.

Lemma ncols_hd A : ncols A = length (hd [] (rows A)).
Proof. unfold ncols. now destruct (rows A). Qed.

Lemma traverse_rows_length {T U} (f : T -> option U) cells m :
  traverse (traverse f) cells = Some m ->
  Forall2 (fun row xr => length xr = length row) cells m.
Proof.
  revert m. induction cells as [|row cells IH]; intros m; cbn [traverse].
  - intros [= <-]. constructor.
  - destruct (traverse f row) as [xr|] eqn:Er; [|discriminate].
    destruct (traverse (traverse f) cells) as [xs|]; [|discriminate].
    intros [= <-]. constructor; [|now apply IH].
    eapply traverse_length; eauto.
Qed.

Lemma Forall2_Forall_r {T U} (R : T -> U -> Prop) (P : T -> Prop)
    (Q : U -> Prop) l m :
  Forall2 R l m -> Forall P l -> (forall a b, R a b -> P a -> Q b) ->
  Forall Q m.
Proof.
  intros H2 HP HR. induction H2 as [|a b l m Hab _ IH]; [constructor|].
  inversion HP; subst. constructor; eauto.
Qed.

Lemma concat_length_uniform {T} (g : list (list T)) n :
  Forall (fun r => length r = n) g -> length (concat g) = length g * n.
Proof.
  induction 1 as [|r g Hr _ IH]; [reflexivity|].
  cbn [concat length]. rewrite length_app, IH, Hr. reflexivity.
Qed.

(** X7.  The shape of what [array] returns from an array with rows of one length:
    X and Y have one row for each data row, every row of X and of Y has half
    the columns, and the header, when asked for, has one name for each cell
    of the header rows. *)
Theorem array_shape
    (A : ndarray) (headers : nat) (dt : dtype) (t : table) (A' : ndarray) :
  uniform (rows A) = true ->
  array A 2 headers dt = (Ok t, A') ->
  length (X t) = length (rows A) - headers /\
  length (Y t) = length (rows A) - headers /\
  Forall (fun r => length r = ncols A / 2) (X t) /\
  Forall (fun r => length r = ncols A / 2) (Y t) /\
  match header t with
  | None => headers = 0
  | Some names => 0 < headers /\ length names = headers * ncols A
  end.
Proof.
  intros Hu Ha. pose proof (array_ok_rows _ _ _ _ _ _ Ha) as (Hh & HX & HY).
  pose proof (array_ok_header _ _ _ _ _ _ Ha) as Hhd.
  apply array_ok_inv in Ha as (_ & Hc & _ & Hast & HYv & _).
  apply uniform_rows in Hu. rewrite <- ncols_hd in Hu.
  assert (Hdata : Forall (fun r => length r = ncols A) (skipn headers (rows A))).
  { apply Forall_forall. intros r Hin. rewrite Forall_forall in Hu.
    apply Hu. rewrite <- (firstn_skipn headers). apply in_or_app. now right. }
  assert (Hw : ncols A = 2 * (ncols A / 2)).
  { pose proof (Nat.div_mod_eq (ncols A) 2). lia. }
  repeat split; [exact HX | exact HY | | | ].
  - rewrite view_read_X_marked in Hast. unfold astype in Hast.
    destruct (traverse _ _) as [m|] eqn:Em; [|discriminate].
    injection Hast as <-. apply traverse_rows_length in Em.
    eapply (Forall2_Forall_r _ (fun row => length row = ncols A / 2));
      [exact Em | | ].
    + apply Forall_forall. intros row Hin.
      apply in_map_iff in Hin as (r0 & <- & Hin).
      rewrite Forall_forall in Hdata. specialize (Hdata r0 Hin).
      cbv beta. rewrite length_map, length_firstn. lia.
    + cbv beta. intros row xr Hx Hrow. now rewrite Hx.
  - rewrite HYv. unfold view_read. cbn [row0 col0 width].
    apply Forall_forall. intros r Hin. apply in_map_iff in Hin as (r0 & <- & Hin).
    rewrite Forall_forall in Hdata. specialize (Hdata r0 Hin).
    rewrite length_firstn, length_skipn. lia.
  - rewrite Hhd. destruct headers as [|h']; [reflexivity|]. split; [lia|].
    rewrite (concat_length_uniform _ (ncols A)).
    + rewrite length_firstn. lia.
    + apply Forall_forall. intros r Hin. rewrite Forall_forall in Hu.
      apply Hu. rewrite <- (firstn_skipn (S h')). apply in_or_app. now left.
Qed.

Lemma array_shape_witness :
  uniform (rows table_4x2) = true /\
  (exists t A', array table_4x2 2 1 float32 = (Ok t, A') /\
     length (X t) = 3 /\ length (Y t) = 3 /\
     Forall (fun r => length r = 1) (X t) /\
     Forall (fun r => length r = 1) (Y t)).
Proof.
  assert (Hu : uniform (rows table_4x2) = true) by reflexivity.
  split; [exact Hu|].
  destruct (array table_4x2 2 1 float32) as [[t|e] A'] eqn:Ea;
    [|vm_compute in Ea; discriminate].
  exists t, A'. split; [reflexivity|].
  destruct (array_shape table_4x2 1 float32 t A' Hu Ea)
    as (HX & HY & HXc & HYc & _).
  repeat split; assumption.
Defined.

(** The theorem on arrays with items of three characters or more, at the
    table with the cell "abc". *)
Lemma array_two_sections_witness :
  3 <= itemsize table_4x2 /\ ncols table_4x2 mod 2 = 0 /\
  array table_4x2 2 1 float32 =
  (Ok (Table [ [Finite (lit false "1" "5")]; [NaN]; [Finite (lit true "3" "")] ]
             float32
             [ [str "x"]; [str "y"]; [str "z"] ]
             (Some [str "h1"; str "h2"])),
   marked table_4x2 1).
Proof.
  assert (H1 : 3 <= itemsize table_4x2) by (cbn; lia).
  assert (H2 : ncols table_4x2 mod 2 = 0) by reflexivity.
  assert (H3 : view_size table_4x2 (View 1 0 (ncols table_4x2 / 2)) <> 0)
    by (vm_compute; discriminate).
  split; [exact H1|]. split; [exact H2|].
  exact (array_two_sections table_4x2 1 float32 H1 H2 H3).
Defined.

Lemma marked_numeric A h :
  Forall (fun r => Forall (fun c => isnumber c = true) (firstn (ncols A / 2) r))
         (skipn h (rows A)) ->
  marked A h = A.
Proof.
  intros Hnum. unfold marked. destruct A as [w g]. cbn [itemsize rows] in *.
  f_equal. rewrite <- (firstn_skipn h g) at 3. f_equal.
  rewrite <- (map_id (skipn h g)) at 2. apply map_ext_in. intros r Hin.
  rewrite Forall_forall in Hnum. specialize (Hnum r Hin).
  rewrite <- (firstn_skipn (ncols {| itemsize := w; rows := g |} / 2) r) at 3.
  f_equal. rewrite <- (map_id (firstn _ r)) at 2. apply map_ext_in.
  intros c Hc. rewrite Forall_forall in Hnum. unfold nan_marker.
  now rewrite (Hnum c Hc).
Qed.

(** X9.  An array whose cells in the first half of the columns, below the header
    rows, are all numbers is left as it was, whatever the outcome. *)
Theorem array_keeps_numeric_array
    (A : ndarray) (indeps headers : nat) (dt : dtype) :
  Forall (fun r => Forall (fun c => isnumber c = true) (firstn (ncols A / 2) r))
         (skipn headers (rows A)) ->
  snd (array A indeps headers dt) = A.
Proof.
  intros Hnum.
  destruct (array_buffer A indeps headers dt) as [E | [_ E]]; [exact E|].
  rewrite E. now apply marked_numeric.
Qed.

Lemma array_keeps_numeric_array_witness :
  snd (array table_2x4 2 1 float32) = table_2x4.
Proof.
  apply array_keeps_numeric_array. vm_compute.
  repeat constructor.
Defined.

Lemma traverse_none {T U} (f : T -> option U) l a :
  In a l -> f a = None -> traverse f l = None.
Proof.
  induction l as [|x l IH]; [contradiction|]. intros [-> | Hin] Ha; cbn.
  - now rewrite Ha.
  - rewrite (IH Hin Ha). now destruct (f x).
Qed.

Lemma cut_marker_is_no_float w : w < 3 -> float_of_cell (firstn w (str "nan")) = None.
Proof.
  intros Hw. destruct w as [|[|[|w]]]; try lia; reflexivity.
Qed.

(** X10.  In an array whose items hold fewer than three characters, a cell of the
    X block that is not a number makes [array] raise [ValueError], after the
    cut marker has been written to the array. *)
Theorem array_raises_on_narrow_items
    (A : ndarray) (headers : nat) (dt : dtype) (r : list pystr) (c : pystr) :
  itemsize A < 3 -> ncols A mod 2 = 0 ->
  In r (skipn headers (rows A)) -> In c (firstn (ncols A / 2) r) ->
  isnumber c = false ->
  array A 2 headers dt = (raise ValueError, marked A headers).
Proof.
  intros Hw Hc Hr Hcell Hnum. unfold array. rewrite np_split_two by assumption.
  assert (Hs : view_size A (View headers 0 (ncols A / 2)) <> 0).
  { unfold view_size, view_read. cbn [row0 col0 width skipn].
    apply in_split in Hr as (g1 & g2 & ->).
    rewrite map_app, concat_app, length_app. cbn [map concat].
    rewrite length_app. destruct (firstn (ncols A / 2) r); [contradiction|].
    cbn [length]. lia. }
  apply Nat.eqb_neq in Hs. rewrite Hs, view_update_X, view_read_X_marked.
  unfold astype.
  rewrite (traverse_none _ _ (map (nan_marker (itemsize A)) (firstn (ncols A / 2) r)));
    [reflexivity | | ].
  - apply in_map_iff. now exists r.
  - apply (traverse_none _ _ (nan_marker (itemsize A) c)).
    + now apply in_map.
    + unfold nan_marker. rewrite Hnum. now apply cut_marker_is_no_float.
Qed.

Lemma array_raises_on_narrow_items_witness :
  array narrow_row 2 0 float32
  = (raise ValueError, NdArray 1 [ [str "n"; str "1"] ]).
Proof.
  apply (array_raises_on_narrow_items narrow_row 0 float32
           [str "x"; str "1"] (str "x")).
  - cbn. lia.
  - reflexivity.
  - left. reflexivity.
  - left. reflexivity.
  - reflexivity.
Defined.

(** ** Further properties of the readers *)

Section Readers.
Context `{Collaborators}.

(** X11.  A file without a non-empty line makes [csv] raise [IndexError]: the
    array of no line has one axis, and [array] splits along the second. *)
Theorem csv_raises_on_blank_file
    (fs : filesystem) (path content text : pystr) (ls : list pystr)
    (indeps headers : nat) (kw : kwargs) :
  fs path = Some content ->
  csv_text fs content kw = Ok text ->
  split text (kw_end kw) = Ok ls ->
  filter truthy ls = [] ->
  csv fs path indeps headers kw = raise IndexError.
Proof.
  intros Hf Ht Hs Hl. unfold csv, read_file. rewrite Hf. cbn [bind].
  rewrite Ht. cbn [bind]. unfold csv_lines. rewrite Hs. cbn [bind].
  rewrite Hl. reflexivity.
Qed.

(** X12.  An empty row delimiter makes [csv] raise [ValueError], and so does an
    empty column delimiter as soon as the text has a non-empty line. *)
Theorem csv_raises_on_empty_delimiter
    (fs : filesystem) (path content text : pystr)
    (indeps headers : nat) (kw : kwargs) :
  fs path = Some content ->
  csv_text fs content kw = Ok text ->
  (kw_end kw = [] -> csv fs path indeps headers kw = raise ValueError) /\
  (kw_sep kw = [] ->
   forall ls, split text (kw_end kw) = Ok ls -> filter truthy ls <> [] ->
   csv fs path indeps headers kw = raise ValueError).
Proof.
  intros Hf Ht. unfold csv, read_file. rewrite Hf. cbn [bind].
  rewrite Ht. cbn [bind]. unfold csv_lines. split.
  - intros ->. reflexivity.
  - intros Hsep ls Hs Hl. rewrite Hs. cbn [bind].
    destruct (filter truthy ls) as [|l rest]; [contradiction|].
    cbn [map_result]. rewrite Hsep. reflexivity.
Qed.

End Readers.

Lemma csv_raises_on_blank_file_witness :
  csv (one_file (str "blank.csv") [10%N; 10%N]) (str "blank.csv") 2 1 no_kwargs
  = raise IndexError.
Proof.
  apply (csv_raises_on_blank_file
           (one_file (str "blank.csv") [10%N; 10%N]) (str "blank.csv")
           [10%N; 10%N] [10%N; 10%N] [ []; []; [] ] 2 1 no_kwargs);
    reflexivity.
Defined.

Lemma csv_raises_on_empty_delimiter_witness :
  csv fs_table (str "t.csv") 2 1
      (Kwargs false false false false (str ",") [] float32 float32)
  = raise ValueError /\
  csv fs_table (str "t.csv") 2 1
      (Kwargs false false false false [] [10%N] float32 float32)
  = raise ValueError.
Proof.
  split.
  - eapply (proj1 (csv_raises_on_empty_delimiter fs_table (str "t.csv") _ _ 2 1
                     (Kwargs false false false false (str ",") [] float32 float32)
                     eq_refl eq_refl)).
    reflexivity.
  - eapply (proj2 (csv_raises_on_empty_delimiter fs_table (str "t.csv") _ _ 2 1
                     (Kwargs false false false false [] [10%N] float32 float32)
                     eq_refl eq_refl)).
    + reflexivity.
    + vm_compute. reflexivity.
    + vm_compute. discriminate.
Defined.

(** X14.  [learningtable] returns from a pair only, and then hands back its second
    item as Y, no header, and an X with the rows and the cells of the first
    item. *)
Theorem learningtable_pair (items : list ndarray) (dt : dtype) (t : table) :
  learningtable (PTuple items) dt = Ok t ->
  exists Xa y,
    items = [Xa; y] /\
    Y t = rows y /\
    header t = None /\
    Forall2 (fun row xr => length xr = length row) (rows Xa) (X t).
Proof.
  unfold learningtable.
  destruct items as [|Xa [|y [|z items]]]; try discriminate.
  unfold astype. destruct (traverse _ (rows Xa)) as [m|] eqn:Em;
    [|discriminate].
  cbn [bind]. intros [= <-]. exists Xa, y. cbn [X Y header].
  repeat split. exact (traverse_rows_length float_of_cell _ _ Em).
Qed.

Lemma learningtable_pair_witness :
  exists t,
    learningtable (PTuple [numeric_2x2; example_column]) float32 = Ok t /\
    Y t = rows example_column /\ header t = None.
Proof.
  destruct (learningtable (PTuple [numeric_2x2; example_column]) float32)
    as [t|e] eqn:E; [|vm_compute in E; discriminate].
  exists t. split; [reflexivity|].
  destruct (learningtable_pair _ _ _ E) as (Xa & y & Hi & HY & Hh & _).
  injection Hi as <- <-. split; assumption.
Defined.

(** ** [ravel] *)

Lemma flatten_item_list items : flatten_item (PyList items) = flatten items.
Proof.
  unfold flatten. induction items as [|y items IH]; [reflexivity|].
  cbn [flat_map]. rewrite <- IH. reflexivity.
Qed.

Lemma frames_item_list items : frames_item (PyList items) = frames items.
Proof.
  induction items as [|y items IH]; [reflexivity|].
  cbn [frames]. rewrite <- IH. reflexivity.
Qed.

Lemma flatten_cons_list items rest :
  flatten (PyList items :: rest) = flatten items ++ flatten rest.
Proof. unfold flatten at 1. cbn [flat_map]. now rewrite flatten_item_list. Qed.

Lemma frames_cons_list items rest :
  frames (PyList items :: rest) = S (Nat.max (frames items) (frames rest)).
Proof. cbn [frames]. now rewrite frames_item_list. Qed.

Lemma frames_positive a : 1 <= frames a.
Proof. destruct a; cbn [frames]; lia. Qed.

(** [ravel] returns when the depth allows the calls it makes, and raises
    otherwise. *)
Lemma ravel_spec depth a :
  ravel depth a
  = if frames a <=? depth then Ok (flatten a) else raise RecursionError.
Proof.
  revert a. induction depth as [|d IH]; intros a.
  - pose proof (frames_positive a) as Hp.
    destruct (Nat.leb_spec (frames a) 0) as [Hle|_]; [lia | reflexivity].
  - destruct a as [|[p|items] rest]; [reflexivity | |].
    + cbn [ravel]. rewrite IH. cbn [frames frames_item Nat.max].
      change (S (frames rest) <=? S d) with (frames rest <=? d).
      destruct (frames rest <=? d); reflexivity.
    + cbn [ravel]. rewrite !IH, frames_cons_list, flatten_cons_list.
      change (S (Nat.max (frames items) (frames rest)) <=? S d)
        with (Nat.max (frames items) (frames rest) <=? d).
      destruct (Nat.leb_spec (frames items) d),
        (Nat.leb_spec (frames rest) d),
        (Nat.leb_spec (Nat.max (frames items) (frames rest)) d);
        try lia; reflexivity.
Qed.

Lemma pyobj_nested_ind (P : pyobj -> Prop) :
  (forall p, P (Atom p)) ->
  (forall items, Forall P items -> P (PyList items)) ->
  forall o, P o.
Proof.
  intros HA HL. fix IH 1. intros [p|items]; [apply HA|]. apply HL.
  induction items as [|y items IHl]; constructor; [apply IH | exact IHl].
Qed.

Lemma flatten_item_atoms o : Forall is_atom (flatten_item o).
Proof.
  induction o as [p|items IH] using pyobj_nested_ind.
  - repeat constructor.
  - rewrite flatten_item_list. unfold flatten.
    induction IH as [|y items Hy _ IHl]; [constructor|].
    cbn [flat_map]. apply Forall_app. split; assumption.
Qed.

Lemma flatten_atoms a : Forall is_atom (flatten a).
Proof. rewrite <- flatten_item_list. apply flatten_item_atoms. Qed.

Lemma flatten_of_atoms a : Forall is_atom a -> flatten a = a.
Proof.
  induction 1 as [|x a Hx _ IH]; [reflexivity|].
  destruct x; [|contradiction]. unfold flatten in *. cbn [flat_map flatten_item].
  now rewrite IH.
Qed.

Lemma frames_of_atoms a : Forall is_atom a -> frames a = S (length a).
Proof.
  induction 1 as [|x a Hx _ IH]; [reflexivity|].
  destruct x; [|contradiction]. cbn [frames frames_item Nat.max length].
  now rewrite IH.
Qed.

Lemma frames_app a b :
  frames a <= frames (a ++ b) /\ frames b <= frames (a ++ b).
Proof.
  induction a as [|x a IH]; cbn [app frames].
  - pose proof (frames_positive b). lia.
  - lia.
Qed.

(** X15.  [ravel] returns when the depth left to the interpreter allows the
    nested calls it makes, and raises [RecursionError] otherwise.  What it
    returns are the items that are no lists, from left to right, and no
    list.  A list without a nested list takes one call for each item and
    one more, and comes back as it is. *)
Theorem ravel_flattens (depth : nat) (a : list pyobj) :
  (frames a <= depth -> ravel depth a = Ok (flatten a)) /\
  (depth < frames a -> ravel depth a = raise RecursionError) /\
  Forall is_atom (flatten a) /\
  (Forall is_atom a -> flatten a = a /\ frames a = S (length a)).
Proof.
  rewrite ravel_spec. split; [|split; [|split]].
  - intros Hle. apply Nat.leb_le in Hle. now rewrite Hle.
  - intros Hlt. apply Nat.leb_gt in Hlt. now rewrite Hlt.
  - apply flatten_atoms.
  - intros Ha. split; [now apply flatten_of_atoms | now apply frames_of_atoms].
Qed.

(** The theorem at a list of three items, with room for four calls and for
    three, and at a list that holds a list in a list, which takes five. *)
Lemma ravel_flattens_witness :
  let x := Atom (str "x") in
  let y := Atom (str "y") in
  let z := Atom (str "z") in
  ravel 4 [x; y; z] = Ok [x; y; z] /\
  ravel 3 [x; y; z] = raise RecursionError /\
  ravel 5 [PyList [x; PyList [y]]; z] = Ok [x; y; z].
Proof.
  intros x y z.
  destruct (ravel_flattens 4 [x; y; z]) as (Hok & _).
  destruct (ravel_flattens 3 [x; y; z]) as (_ & Hraise & _).
  destruct (ravel_flattens 5 [PyList [x; PyList [y]]; z]) as (Hnest & _).
  split; [|split].
  - rewrite Hok by (vm_compute; lia). reflexivity.
  - apply Hraise. vm_compute. lia.
  - rewrite Hnest by (vm_compute; lia). reflexivity.
Defined.

(** X16.  [ravel] keeps the order of the items: when it returns on a list
    followed by another, it returns on each of the two, and the result is
    the result for the first followed by the result for the second.  Its
    result flattened again comes back as it is when the depth allows one
    call for each of its items and one more, and raises [RecursionError]
    otherwise, which happens although the first call returned when the
    items were spread over nested lists. *)
Theorem ravel_app (depth : nat) (a b r : list pyobj) :
  (ravel depth (a ++ b) = Ok r ->
   exists ra rb,
     ravel depth a = Ok ra /\ ravel depth b = Ok rb /\ r = ra ++ rb) /\
  (ravel depth a = Ok r ->
   (length r < depth -> ravel depth r = Ok r) /\
   (depth <= length r -> ravel depth r = raise RecursionError)).
Proof.
  split.
  - rewrite !ravel_spec. pose proof (frames_app a b) as [Ha Hb].
    destruct (Nat.leb_spec (frames (a ++ b)) depth) as [Hle|_];
      [|discriminate].
    intros [= <-]. exists (flatten a), (flatten b).
    destruct (Nat.leb_spec (frames a) depth); [|lia].
    destruct (Nat.leb_spec (frames b) depth); [|lia].
    split; [reflexivity|]. split; [reflexivity|]. apply flat_map_app.
  - rewrite ravel_spec.
    destruct (Nat.leb_spec (frames a) depth) as [Hle|_]; [|discriminate].
    intros [= <-]. rewrite ravel_spec.
    rewrite (frames_of_atoms _ (flatten_atoms a)).
    rewrite (flatten_of_atoms _ (flatten_atoms a)).
    split; intros Hd.
    + destruct (Nat.leb_spec (S (length (flatten a))) depth); [reflexivity|lia].
    + destruct (Nat.leb_spec (S (length (flatten a))) depth); [lia|reflexivity].
Qed.

(** The theorem at two lists of three items in a list: six calls are
    enough for it, and not for its result. *)
Lemma ravel_app_witness :
  let x := Atom (str "x") in
  let nested := [PyList [x; x; x]; PyList [x; x; x]] in
  ravel 6 nested = Ok [x; x; x; x; x; x] /\
  ravel 6 [x; x; x; x; x; x] = raise RecursionError /\
  ravel 7 [x; x; x; x; x; x] = Ok [x; x; x; x; x; x] /\
  exists ra rb,
    ravel 6 [PyList [x; x; x]] = Ok ra /\ ravel 6 [PyList [x; x; x]] = Ok rb /\
    [x; x; x; x; x; x] = ra ++ rb.
Proof.
  intros x nested.
  assert (E6 : ravel 6 nested = Ok [x; x; x; x; x; x]) by reflexivity.
  assert (E7 : ravel 7 nested = Ok [x; x; x; x; x; x]) by reflexivity.
  split; [exact E6|]. split; [|split].
  - apply (proj2 (ravel_app 6 nested [] [x; x; x; x; x; x]) E6).
    cbn [length]. lia.
  - apply (proj2 (ravel_app 7 nested [] [x; x; x; x; x; x]) E7).
    cbn [length]. lia.
  - apply (proj1 (ravel_app 6 [PyList [x; x; x]] [PyList [x; x; x]]
                    [x; x; x; x; x; x])).
    exact E6.
Defined.

(** ** [padnumber] *)

Lemma repeat_str_char c k : repeat_str [c] k = repeat c k.
Proof.
  unfold repeat_str. induction k as [|k IH]; [reflexivity|].
  cbn [repeat concat app]. now rewrite IH.
Qed.

(** X17.  [padnumber] raises [ValueError] exactly when [actual] is longer in
    digits (and sign) than [maximum].  Otherwise, with a pad of one
    character, the result is as long as [maximum] written out, and is
    [actual] written out with the pad character repeated before it, or
    after it when [before] is false. *)
Theorem padnumber_width (actual maximum : Z) (c : N) (before : bool) :
  let stract := str_int actual in
  let strmax := str_int maximum in
  if length strmax <? length stract
  then exists e, padnumber actual maximum [c] before = Raise e
                 /\ exn_cls e = ValueError
  else exists padded,
      padnumber actual maximum [c] before = Ok padded /\
      length padded = length strmax /\
      padded = if before
               then repeat c (length strmax - length stract) ++ stract
               else stract ++ repeat c (length strmax - length stract).
Proof.
  cbv zeta. unfold padnumber.
  destruct (Nat.ltb_spec (length (str_int maximum)) (length (str_int actual)))
    as [Hlt | Hle].
  - eexists. split; reflexivity.
  - eexists. split; [reflexivity|]. rewrite repeat_str_char.
    split; [|reflexivity].
    destruct before; rewrite length_app, repeat_length; lia.
Qed.

(** ** [niceround] *)

Lemma contains_char c s : contains [c] s = true <-> In c s.
Proof.
  induction s as [|x s IH]; cbn [contains startswith].
  - split; [discriminate | contradiction].
  - rewrite andb_true_r, orb_true_iff, IH, N.eqb_eq. cbn [In].
    split; intros [H | H]; auto.
Qed.

Lemma index_of_spec c s :
  ~ In c (firstn (index_of c s) s) /\
  (In c s -> s = firstn (index_of c s) s ++ c :: skipn (index_of c s + 1) s) /\
  (~ In c s -> index_of c s = length s).
Proof.
  induction s as [|x s (IH1 & IH2 & IH3)]; cbn [index_of].
  - cbn. repeat split; try tauto.
  - destruct (N.eqb_spec x c) as [-> | Hne].
    + repeat split; auto. cbn [In]. intros H. exfalso. apply H. now left.
    + cbn [firstn In skipn Nat.add length]. repeat split.
      * intros [E | H]; [now apply Hne | now apply IH1].
      * intros [E | H]; [now elim Hne|]. cbn [app]. f_equal. now apply IH2.
      * intros H. f_equal. apply IH3. intros Hin. apply H. now right.
Qed.

(** The text [niceround] makes from [str(number)]: the part before the
    first point, or all of it when there is none, then a point, then at most
    [places] of the characters that followed the point, cut and not
    rounded. *)
Lemma niceround_text_spec strnumber places :
  let predec := firstn (index_of 46%N strnumber) strnumber in
  ~ In 46%N predec /\
  (~ In 46%N strnumber ->
   niceround_text strnumber places = strnumber ++ [46%N]) /\
  (forall frac, strnumber = predec ++ 46%N :: frac ->
   niceround_text strnumber places = predec ++ 46%N :: firstn places frac).
Proof.
  cbv zeta. destruct (index_of_spec 46 strnumber) as (H1 & H2 & H3).
  split; [exact H1|]. unfold niceround_text. change (str ".") with [46%N].
  split.
  - intros Hno. assert (E : contains [46%N] strnumber = false).
    { destruct (contains [46%N] strnumber) eqn:E; [|reflexivity].
      now apply contains_char in E. }
    rewrite E, firstn_all, skipn_all2 by lia. now destruct places.
  - intros frac Hs.
    assert (Hin : In 46%N strnumber).
    { rewrite Hs. apply in_or_app. right. now left. }
    apply contains_char in Hin as E. rewrite E. cbn [app]. do 2 f_equal.
    rewrite (H2 Hin) in Hs at 1. apply app_inv_head in Hs.
    now injection Hs as ->.
Qed.

(** X18.  A text with digits [predec] before its first point, and [frac] after
    it, comes back with [frac] cut to [places] characters; the result of
    [niceround] comes back from [niceround] as it is. *)
Theorem niceround_truncates (predec frac : pystr) (places : nat) :
  ~ In 46%N predec ->
  niceround (ArgStr (predec ++ 46%N :: frac)) places
    = Ok (predec ++ 46%N :: firstn places frac) /\
  niceround (ArgStr (predec ++ 46%N :: firstn places frac)) places
    = Ok (predec ++ 46%N :: firstn places frac).
Proof.
  intros Hp.
  assert (Hidx : forall f, index_of 46%N (predec ++ 46%N :: f) = length predec).
  { intros f. induction predec as [|x p IH]; cbn [app index_of length].
    - reflexivity.
    - destruct (N.eqb_spec x 46) as [-> | _].
      + exfalso. apply Hp. now left.
      + f_equal. apply IH. intros H. apply Hp. now right. }
  assert (Hnr : forall f, niceround (ArgStr (predec ++ 46%N :: f)) places
                          = Ok (predec ++ 46%N :: firstn places f)).
  { intros f. unfold niceround. change (str ".") with [46%N].
    assert (Hin : In 46%N (predec ++ 46%N :: f))
      by (apply in_or_app; right; now left).
    apply contains_char in Hin as ->. cbn [negb]. f_equal.
    destruct (niceround_text_spec (predec ++ 46%N :: f) places) as (_ & _ & H).
    rewrite Hidx, firstn_app, firstn_all, Nat.sub_diag in H.
    cbn [firstn] in H. rewrite app_nil_r in H. now apply H. }
  split; [apply Hnr|]. rewrite Hnr. do 3 f_equal.
  rewrite firstn_firstn. f_equal. lia.
Qed.

Lemma niceround_truncates_witness :
  niceround (ArgStr (str "1.99")) 1 = Ok (str "1.9") /\
  niceround (ArgStr (str "1.9")) 1 = Ok (str "1.9").
Proof.
  assert (H : ~ In 46%N (str "1")) by (vm_compute; intros [H | H]; [discriminate | exact H]).
  exact (niceround_truncates (str "1") (str "99") 1 H).
Defined.

(** X19.  A float that [str] writes without a point (an exponent form, [inf],
    [nan]) comes back with a point added at its end; a string without a
    point, or any object that is neither float nor string, raises
    [TypeError]. *)
Theorem niceround_without_point (s : pystr) (places : nat) :
  ~ In 46%N s ->
  niceround (ArgFloat s) places = Ok (s ++ [46%N]) /\
  (exists e, niceround (ArgStr s) places = Raise e /\ exn_cls e = TypeError).
Proof.
  intros Hno. split.
  - unfold niceround. f_equal.
    now apply (niceround_text_spec s places).
  - unfold niceround. change (str ".") with [46%N].
    destruct (contains [46%N] s) eqn:E.
    + now apply contains_char in E.
    + eexists. split; reflexivity.
Qed.

Lemma niceround_without_point_witness :
  niceround (ArgFloat (str "1e+20")) 2 = Ok (str "1e+20.") /\
  (exists e, niceround (ArgStr (str "314")) 2 = Raise e /\ exn_cls e = TypeError).
Proof.
  assert (H1 : ~ In 46%N (str "1e+20")) by (vm_compute; intuition discriminate).
  assert (H2 : ~ In 46%N (str "314")) by (vm_compute; intuition discriminate).
  split.
  - exact (proj1 (niceround_without_point (str "1e+20") 2 H1)).
  - exact (proj2 (niceround_without_point (str "314") 2 H2)).
Defined.

(** ** [choose] and [chooseN] *)

Lemma pop_in_range {A} i (l : list A) :
  i < length l ->
  exists x rest,
    pop i l = Some (x, rest) /\ Permutation (x :: rest) l /\
    S (length rest) = length l.
Proof.
  revert i. induction l as [|y l IH]; intros i Hi; [cbn in Hi; lia|].
  destruct i as [|i]; cbn [pop].
  - exists y, l. repeat split. apply Permutation_refl.
  - destruct (IH i) as (x & rest & -> & Hp & Hl); [cbn in Hi; lia|].
    exists x, (y :: rest). repeat split.
    + rewrite perm_swap. now constructor.
    + cbn [length]. now rewrite Hl.
Qed.

Lemma choose_spec {A} d (l : list A) :
  l <> [] ->
  exists x rest,
    choose d l = (Ok x, rest) /\ Permutation (x :: rest) l /\
    S (length rest) = length l.
Proof.
  intros Hl. destruct l as [|y l]; [contradiction|]. unfold choose.
  destruct (pop_in_range (d mod length (y :: l)) (y :: l))
    as (x & rest & -> & Hp & Hn).
  - apply Nat.mod_upper_bound. discriminate.
  - now exists x, rest.
Qed.

(** X20.  When there are at least as many items as draws, [chooseN] returns one
    item for each draw and takes them out of the caller's list: the items
    returned and the items left are together the items of the list, each as
    often as it was there. *)
Theorem chooseN_takes_without_replacement {A}
    (draws : list nat) (iterable : list A) :
  length draws <= length iterable ->
  exists chosen remaining,
    chooseN draws iterable = (Ok chosen, remaining) /\
    length chosen = length draws /\
    length remaining = length iterable - length draws /\
    Permutation (chosen ++ remaining) iterable.
Proof.
  revert iterable. induction draws as [|d draws IH]; intros l Hl.
  - exists [], l. cbn. repeat split; [lia | apply Permutation_refl].
  - cbn [length] in Hl. destruct (choose_spec d l) as (x & rest & Hc & Hp & Hn).
    { intros ->. cbn in Hl. lia. }
    destruct (IH rest) as (xs & rem & Hr & Hlen & Hrem & Hperm); [lia|].
    exists (x :: xs), rem. cbn [chooseN]. rewrite Hc, Hr.
    repeat split; cbn [length]; [lia | lia |].
    cbn [app]. rewrite <- Hp. now constructor.
Qed.

Lemma chooseN_takes_without_replacement_witness :
  chooseN [5; 0; 7] [str "a"; str "b"; str "c"; str "d"]
  = (Ok [str "b"; str "a"; str "d"], [str "c"]).
Proof.
  assert (H : length [5; 0; 7] <= length [str "a"; str "b"; str "c"; str "d"])
    by (cbn; lia).
  destruct (chooseN_takes_without_replacement
              [5; 0; 7] [str "a"; str "b"; str "c"; str "d"] H)
    as (chosen & remaining & E & _).
  rewrite E. vm_compute in E. symmetry. exact E.
Defined.

(** X21.  With more draws than items, [chooseN] raises [ValueError] once the list
    is used up, and the caller's list is left empty. *)
Theorem chooseN_uses_up_short_list {A}
    (draws : list nat) (iterable : list A) :
  length iterable < length draws ->
  chooseN draws iterable = (raise ValueError, []).
Proof.
  revert iterable. induction draws as [|d draws IH]; intros l Hl;
    [cbn in Hl; lia|].
  destruct l as [|y l]; [reflexivity|].
  destruct (choose_spec d (y :: l)) as (x & rest & Hc & _ & Hn);
    [discriminate|].
  cbn [chooseN]. rewrite Hc, IH; [reflexivity|].
  cbn [length] in *. lia.
Qed.

Lemma chooseN_uses_up_short_list_witness :
  chooseN [5; 0; 7] [str "a"; str "b"] = (raise ValueError, []).
Proof.
  apply chooseN_uses_up_short_list. cbn. lia.
Defined.
